(** * CV comparison backend: the prompt compiler and the response normalizer

    A shallow embedding of [api/views.py]: the helpers [_ensure_list] and
    [normalize_result], the payload extraction of [CompareCVsView.post] and
    the prompt synthesis of [CompareCVsView.craft_prompt].

    Python values are modelled as follows.
    - [str] is a sequence of Unicode code points ([list N]).
    - A decoded JSON document is a tree of type [value]; a [dict] is an
      association list in insertion order, looked up by its first match.
    - A raised exception is the [Raise] outcome of a small error monad.
    - Where object identity matters (mutation and aliasing), objects live in
      an explicit heap, see module [Heap]. *)

From Stdlib Require Import String Ascii List NArith ZArith Bool Lia Arith.
From Stdlib Require Import Floats.SpecFloat Numbers.DecimalString.
Import ListNotations.

Set Implicit Arguments.
#[local] Set Warnings "-register-all".

(** ** Python strings *)

Module PyStr.

Definition str := list N.

(** A literal: each character of the Rocq string is one code point. *)
Definition u (s : string) : str :=
  map N_of_ascii (list_ascii_of_string s).

Definition backslash : N := 92.
Definition dquote : N := 34.
Definition lbrace : N := 123.
Definition rbrace : N := 125.

Fixpoint str_eqb (a b : str) : bool :=
  match a, b with
  | [], [] => true
  | x :: a', y :: b' => N.eqb x y && str_eqb a' b'
  | _, _ => false
  end.

(** [s.startswith(p)] *)
Fixpoint startswith (s p : str) {struct p} : bool :=
  match p with
  | [] => true
  | y :: p' =>
      match s with
      | [] => false
      | x :: s' => N.eqb x y && startswith s' p'
      end
  end.

(** [s.endswith(p)] *)
Definition endswith (s p : str) : bool :=
  startswith (rev s) (rev p).

(** [s.replace(old, new)]: occurrences of [old] are replaced from left to
    right without overlap; [skip] counts the characters of the occurrence
    just replaced that are still to be passed over. *)
Fixpoint replace_from (old new : str) (skip : nat) (s : str) : str :=
  match s with
  | [] => []
  | c :: s' =>
      match skip with
      | S k => replace_from old new k s'
      | O =>
          if startswith s old
          then new ++ replace_from old new (length old - 1) s'
          else c :: replace_from old new 0 s'
      end
  end.

Definition replace (s old new : str) : str :=
  match old with
  | [] => new ++ flat_map (fun c => c :: new) s
  | _ :: _ => replace_from old new 0 s
  end.

(** [s.find(c)] and [s.rfind(c)] for a one-character needle: the index of
    the first (last) occurrence, or [-1]. *)
Fixpoint find_from (c : N) (i : Z) (s : str) : Z :=
  match s with
  | [] => (-1)%Z
  | x :: s' => if N.eqb x c then i else find_from c (i + 1)%Z s'
  end.

Definition find (s : str) (c : N) : Z := find_from c 0%Z s.

Fixpoint rfind_from (c : N) (i : Z) (last : Z) (s : str) : Z :=
  match s with
  | [] => last
  | x :: s' => rfind_from c (i + 1)%Z (if N.eqb x c then i else last) s'
  end.

Definition rfind (s : str) (c : N) : Z := rfind_from c 0%Z (-1)%Z s.

(** [s[a:b]] for [0 <= a] and [0 <= b]. *)
Definition slice (s : str) (a b : nat) : str :=
  firstn (b - a) (skipn a s).

(** [str.isspace] on one code point: the characters [s.strip()] removes. *)
Definition isspace (c : N) : bool :=
  ((9 <=? c) && (c <=? 13) || (28 <=? c) && (c <=? 32)
   || (c =? 133) || (c =? 160) || (c =? 5760)
   || (8192 <=? c) && (c <=? 8202)
   || (c =? 8232) || (c =? 8233) || (c =? 8239) || (c =? 8287)
   || (c =? 12288))%N.

Fixpoint lstrip (s : str) : str :=
  match s with
  | [] => []
  | c :: s' => if isspace c then lstrip s' else s
  end.

Definition rstrip (s : str) : str := rev (lstrip (rev s)).

Definition strip (s : str) : str := rstrip (lstrip s).

(** [sep.join(parts)] *)
Fixpoint join (sep : str) (parts : list str) : str :=
  match parts with
  | [] => []
  | [p] => p
  | p :: rest => p ++ sep ++ join sep rest
  end.

(** [str(n)] for a natural number. *)
Definition str_of_nat (n : nat) : str :=
  u (NilZero.string_of_uint (Nat.to_uint n)).

End PyStr.
Import PyStr.

(** ** The prompt compiler's escaping *)

(** [esc] of [craft_prompt]:
    [text.replace('\\', '\\\\').replace('"', '\\"')]. *)
Definition esc (text : str) : str :=
  replace (replace text [backslash] [backslash; backslash])
          [dquote] [backslash; dquote].

(** What [esc] does to one character. *)
Definition esc_char (c : N) : str :=
  if N.eqb c backslash then [backslash; backslash]
  else if N.eqb c dquote then [backslash; dquote]
  else [c].

(** Reading back the body of a string literal, as far as the two escapes
    [esc] produces go: a backslash followed by a backslash or by a double
    quote stands for that second character; everything else stands for
    itself. *)
Fixpoint unescape (s : str) : str :=
  match s with
  | [] => []
  | c :: rest =>
      if N.eqb c backslash then
        match rest with
        | d :: rest' =>
            if N.eqb d backslash || N.eqb d dquote
            then d :: unescape rest'
            else c :: unescape rest
        | [] => [c]
        end
      else c :: unescape rest
  end.


(** ** Decoded JSON documents and exceptions *)

Inductive value : Type :=
| VNone
| VBool (b : bool)
| VInt (n : Z)
| VFloat (f : spec_float)
| VStr (s : str)
| VList (items : list value)
| VDict (entries : list (str * value)).

Definition dict := list (str * value).

(** The name Python reports for the type of a value. *)
Definition type_name (v : value) : str :=
  match v with
  | VNone => u "NoneType"
  | VBool _ => u "bool"
  | VInt _ => u "int"
  | VFloat _ => u "float"
  | VStr _ => u "str"
  | VList _ => u "list"
  | VDict _ => u "dict"
  end.

(** [AttributeError ty]: an object of type [ty] has no attribute [get];
    [TypeError ty]: an object of type [ty] was unpacked with [**];
    [KeyError k]: a subscript [d[k]] on a missing key;
    [ValueError msg]: raised by the code itself. *)
Inductive exn : Type :=
| AttributeError (ty : str)
| TypeError (ty : str)
| KeyError (k : str)
| ValueError (msg : str).

(** [str(e)] *)
Definition exn_str (e : exn) : str :=
  match e with
  | AttributeError ty => u "'" ++ ty ++ u "' object has no attribute 'get'"
  | TypeError ty => u "'" ++ ty ++ u "' object is not a mapping"
  | KeyError k => u "'" ++ k ++ u "'"
  | ValueError msg => msg
  end.

Inductive res (A : Type) : Type :=
| Ok (a : A)
| Raise (e : exn).
Arguments Ok {A} a.
Arguments Raise {A} e.

Definition bind {A B : Type} (m : res A) (k : A -> res B) : res B :=
  match m with
  | Ok a => k a
  | Raise e => Raise e
  end.

Notation "x <- m ;; k" := (bind m (fun x => k))
  (at level 61, m at next level, right associativity).

(** A [for] loop that builds a list, stopping at the first exception. *)
Fixpoint mapM {A B : Type} (f : A -> res B) (l : list A) : res (list B) :=
  match l with
  | [] => Ok []
  | a :: l' => b <- f a ;; bs <- mapM f l' ;; Ok (b :: bs)
  end.

(** ** Dictionaries *)

Section Dict.

Variable V : Type.

Fixpoint dict_lookup (d : list (str * V)) (k : str) : option V :=
  match d with
  | [] => None
  | (k', v) :: d' => if str_eqb k' k then Some v else dict_lookup d' k
  end.

(** [d.get(k, dflt)] on a dictionary. *)
Definition dict_get (d : list (str * V)) (k : str) (dflt : V) : V :=
  match dict_lookup d k with
  | Some v => v
  | None => dflt
  end.

(** [d[k]] *)
Definition dict_item (d : list (str * V)) (k : str) : res V :=
  match dict_lookup d k with
  | Some v => Ok v
  | None => Raise (KeyError k)
  end.

(** [d[k] = v]: an existing key keeps its position, a new one goes
    last. *)
Fixpoint dict_set (d : list (str * V)) (k : str) (v : V) : list (str * V) :=
  match d with
  | [] => [(k, v)]
  | (k', v') :: d' =>
      if str_eqb k' k then (k', v) :: d' else (k', v') :: dict_set d' k v
  end.

(** [d.update(other)], and [{**d, **other}] on a fresh copy of [d]. *)
Definition dict_update (d other : list (str * V)) : list (str * V) :=
  fold_left (fun acc kv => dict_set acc (fst kv) (snd kv)) other d.

End Dict.

(** [o.get(k, dflt)] on an arbitrary value: only a [dict] has the method. *)
Definition py_get (o : value) (k : str) (dflt : value) : res value :=
  match o with
  | VDict d => Ok (dict_get d k dflt)
  | _ => Raise (AttributeError (type_name o))
  end.

(** The operand of [**] in a dictionary display must be a mapping. *)
Definition unpack_mapping (o : value) : res dict :=
  match o with
  | VDict d => Ok d
  | _ => Raise (TypeError (type_name o))
  end.

(** ** The response normalizer *)

Definition _ensure_list (v : value) : list value :=
  match v with
  | VList l => l
  | VNone => []
  | _ => [v]
  end.

Definition zero : value := VFloat (S754_zero false).

Definition default_scores : dict :=
  [ (u "general_qualifications",
     VDict [ (u "education", zero);
             (u "years_of_experience", zero);
             (u "total", zero) ]);
    (u "adequacy_for_assignment",
     VDict [ (u "relevant_project_experience", zero);
             (u "donor_experience", zero);
             (u "regional_experience", zero);
             (u "total", zero) ]);
    (u "specific_skills_competencies",
     VDict [ (u "technical_skills", zero);
             (u "language_proficiency", zero);
             (u "certifications", zero);
             (u "total", zero) ]);
    (u "total_score", zero) ].

Definition default_candidate : dict :=
  [ (u "candidate_name", VStr (u "Unnamed Candidate"));
    (u "recommendation", VStr (u "Not Evaluated"));
    (u "scores", VDict default_scores);
    (u "summary_justification",
     VDict [ (u "key_strengths", VStr (u "None provided."));
             (u "key_weaknesses", VStr (u "None provided.")) ]);
    (u "detailed_evaluation", VList []) ].

Definition criterion (name : string) (weight : Z) : value :=
  VDict [ (u "criterion", VStr (u name)); (u "weight", VInt weight) ].

Definition default_result : dict :=
  [ (u "tor_text", VStr []);
    (u "criteria",
     VList [ criterion "Education" 10;
             criterion "Years of Experience" 10;
             criterion "Relevant Project Experience" 25;
             criterion "Donor Experience (WB, ADB, etc.)" 15;
             criterion "Regional Experience" 10;
             criterion "Technical Skills" 15;
             criterion "Language Proficiency" 10;
             criterion "Certifications" 5 ]);
    (u "candidates", VList []);
    (u "comparison_matrix", VList []);
    (u "final_recommendation",
     VDict [ (u "best_candidate", VStr (u "None"));
             (u "final_decision", VStr (u "None Suitable"));
             (u "justification", VStr (u "No suitable candidates found.")) ]) ].

(** The body of the loop over [candidates]. *)
Definition normalize_candidate (candidate : value) : res value :=
  name <- py_get candidate (u "candidate_name") (VStr (u "Unnamed Candidate")) ;;
  recommendation <- py_get candidate (u "recommendation") (VStr (u "Not Evaluated")) ;;
  scores <- py_get candidate (u "scores") (VDict []) ;;
  scores <- unpack_mapping scores ;;
  sj <- py_get candidate (u "summary_justification") (VDict []) ;;
  key_strengths <- py_get sj (u "key_strengths") (VStr (u "None provided.")) ;;
  sj <- py_get candidate (u "summary_justification") (VDict []) ;;
  key_weaknesses <- py_get sj (u "key_weaknesses") (VStr (u "None provided.")) ;;
  detailed <- py_get candidate (u "detailed_evaluation") (VList []) ;;
  Ok (VDict (dict_update default_candidate
    [ (u "candidate_name", name);
      (u "recommendation", recommendation);
      (u "scores", VDict (dict_update default_scores scores));
      (u "summary_justification",
       VDict [ (u "key_strengths", key_strengths);
               (u "key_weaknesses", key_weaknesses) ]);
      (u "detailed_evaluation", VList (_ensure_list detailed)) ])).

(** The body of the loop over [comparison_matrix]. *)
Definition normalize_matrix_item (item : value) : res value :=
  name <- py_get item (u "candidate_name") (VStr (u "Unnamed Candidate")) ;;
  total_score <- py_get item (u "total_score") zero ;;
  rank <- py_get item (u "rank") (VInt 0) ;;
  Ok (VDict [ (u "candidate_name", name);
              (u "total_score", total_score);
              (u "rank", rank) ]).

Definition normalize_final_recommendation (final_recommendation : value)
  : res value :=
  best_candidate <- py_get final_recommendation (u "best_candidate") (VStr (u "None")) ;;
  final_decision <- py_get final_recommendation (u "final_decision") (VStr (u "None Suitable")) ;;
  justification <- py_get final_recommendation (u "justification")
                     (VStr (u "No suitable candidates found.")) ;;
  Ok (VDict [ (u "best_candidate", best_candidate);
              (u "final_decision", final_decision);
              (u "justification", justification) ]).

Definition normalize_result (result : value) : res value :=
  match result with
  | VDict d =>
      let candidates := _ensure_list (dict_get d (u "candidates") (VList [])) in
      normalized_candidates <- mapM normalize_candidate candidates ;;
      let comparison_matrix :=
        _ensure_list (dict_get d (u "comparison_matrix") (VList [])) in
      normalized_matrix <- mapM normalize_matrix_item comparison_matrix ;;
      let final_recommendation :=
        dict_get d (u "final_recommendation") (VDict []) in
      normalized_final_recommendation <-
        normalize_final_recommendation final_recommendation ;;
      default_criteria <- dict_item default_result (u "criteria") ;;
      Ok (VDict
        [ (u "tor_text", dict_get d (u "tor_text") (VStr []));
          (u "criteria",
           VList (_ensure_list (dict_get d (u "criteria") default_criteria)));
          (u "candidates", VList normalized_candidates);
          (u "comparison_matrix", VList normalized_matrix);
          (u "final_recommendation", normalized_final_recommendation) ])
  | _ => Ok (VDict default_result)
  end.


(** ** Payload extraction and the end of [CompareCVsView.post] *)

(** From the model's reply to the text handed to the JSON parser: the
    statements of [post] between [response.text.strip()] and
    [json.loads]. *)
Definition extract_payload (response_text : str) : res str :=
  let ai_output := strip response_text in
  let cleaned_output := strip ai_output in
  let cleaned_output :=
    if startswith cleaned_output (u "```json") && endswith cleaned_output (u "```")
    then strip (slice cleaned_output 7 (length cleaned_output - 3))
    else cleaned_output in
  if negb (startswith cleaned_output [lbrace]) then
    let first_brace := find cleaned_output lbrace in
    let last_brace := rfind cleaned_output rbrace in
    if negb (first_brace =? -1)%Z && negb (last_brace =? -1)%Z
       && (last_brace >? first_brace)%Z
    then Ok (slice cleaned_output (Z.to_nat first_brace)
                   (Z.to_nat (last_brace + 1)))
    else Raise (ValueError (u "Invalid JSON format returned by AI."))
  else Ok cleaned_output.

(** The text [extract_payload] inspects: the reply trimmed, with a
    surrounding code fence removed. *)
Definition cleaned (response_text : str) : str :=
  let cleaned_output := strip (strip response_text) in
  if startswith cleaned_output (u "```json") && endswith cleaned_output (u "```")
  then strip (slice cleaned_output 7 (length cleaned_output - 3))
  else cleaned_output.

Inductive response : Type :=
| JsonResponse (body : value) (status : nat).

Definition error_response (msg : str) : response :=
  JsonResponse (VDict [ (u "error", VStr msg) ]) 500.

Section Post.

(** [json.loads]; [None] stands for [json.JSONDecodeError]. *)
Variable json_loads : str -> option value.

(** What [post] answers once the model has replied with
    [response_text]. *)
Definition respond (response_text : str) : response :=
  match extract_payload response_text with
  | Raise e => error_response (exn_str e)
  | Ok cleaned_output =>
      match json_loads cleaned_output with
      | None => error_response (u "Invalid JSON response from AI.")
      | Some result =>
          match normalize_result result with
          | Ok normalized => JsonResponse normalized 200
          | Raise e => error_response (exn_str e)
          end
      end
  end.

End Post.

(** ** The prompt compiler *)

Record cv : Type := { filename : str; content : str }.

(** One element of the comprehension of [craft_prompt], at index [i]. *)
Definition cv_entry (i : nat) (c : cv) : str :=
  u "{" ++ [dquote] ++ u "id" ++ [dquote] ++ u ":" ++ [dquote] ++ u "cv"
    ++ str_of_nat (i + 1)
    ++ [dquote] ++ u "," ++ [dquote] ++ u "file_name" ++ [dquote] ++ u ":" ++ [dquote]
    ++ esc (filename c)
    ++ [dquote] ++ u "," ++ [dquote] ++ u "cv_text" ++ [dquote] ++ u ":" ++ [dquote]
    ++ esc (content c)
    ++ [dquote] ++ u "}".

(** [[f(i, x) for i, x in enumerate(l)]], counting from [i]. *)
Fixpoint enumerate_map {A B : Type} (f : nat -> A -> B) (i : nat) (l : list A)
  : list B :=
  match l with
  | [] => []
  | x :: l' => f i x :: enumerate_map f (S i) l'
  end.

Definition cvs_text (cv_contents : list cv) : str :=
  u "[" ++ join (u ", ") (enumerate_map cv_entry 0 cv_contents) ++ u "]".

Definition newline : N := 10.

(** A line of the template; the apostrophe, which the template does not
    use, is written for the double quote. *)
Definition dq (s : string) : str :=
  map (fun c => if N.eqb c 39 then dquote else c) (u s).

Definition template_lines : list str :=
  [
    dq "You are a world-class recruitment AI and expert HR analyst. ";
    dq "Analyze the provided CVs strictly against the Terms of Reference (ToR). ";
    dq "You must always return **valid JSON only**. No extra text, no markdown.";
    [];
    dq "====================================================";
    dq "SCORING CRITERIA (Fixed Weights):";
    dq "General Qualifications - 20%";
    dq "  - Education - 10%";
    dq "  - Years of Experience - 10%";
    dq "Adequacy for the Assignment - 50%";
    dq "  - Relevant Project Experience - 25%";
    dq "  - Donor Experience (WB, ADB, etc.) - 15%";
    dq "  - Regional Experience - 10%";
    dq "Specific Skills & Competencies - 30%";
    dq "  - Technical Skills - 15%";
    dq "  - Language Proficiency - 10%";
    dq "  - Certifications - 5%";
    dq "Total Score - 100%";
    dq "====================================================";
    [];
    dq "RULES:";
    dq "1. Deterministic: same input " ++ [8594%N] ++ dq " same output.";
    dq "2. Do not invent information. If missing, score = 0.";
    dq "3. All scores must be numeric and total 100%.";
    dq "4. Recommendations: choose **one best candidate** OR state 'No candidates are suitable'.";
    dq "5. Each justification must cite explicit CV evidence (" ++ [8804%N] ++ dq "25 words). If no evidence, justification = 'No evidence in CV.'";
    dq "6. Output must be checked 3 times for correctness before finalizing.";
    dq "7. Ensure all fields in the output schema are present, even if empty.";
    [];
    dq "IMPORTANT RULES FOR SCORING:";
    dq "- Each criterion must be scored strictly within its maximum weight. ";
    dq "- Example: Education is out of 10, Experience is out of 10, Project Experience is out of 25, etc.";
    dq "- The sum of all criteria MUST be exactly out of 100. ";
    dq "- Do NOT exceed the maximum weight for any criterion.";
    dq "- Final 'total_score' must always be between 0 and 100 (rounded to 2 decimals).";
    [];
    dq "====================================================";
    dq "OUTPUT FORMAT:";
    dq "{";
    dq "  'tor_text': 'Full ToR Text',";
    dq "  'criteria': [";
    dq "    {'criterion': 'Education', 'weight': 10},";
    dq "    {'criterion': 'Years of Experience', 'weight': 10},";
    dq "    {'criterion': 'Relevant Project Experience', 'weight': 25},";
    dq "    {'criterion': 'Donor Experience (WB, ADB, etc.)', 'weight': 15},";
    dq "    {'criterion': 'Regional Experience', 'weight': 10},";
    dq "    {'criterion': 'Technical Skills', 'weight': 15},";
    dq "    {'criterion': 'Language Proficiency', 'weight': 10},";
    dq "    {'criterion': 'Certifications', 'weight': 5}";
    dq "  ],";
    dq "  'candidates': [";
    dq "    {";
    dq "      'candidate_name': 'string',";
    dq "      'recommendation': 'Suitable | Not Suitable',";
    dq "      'scores': {";
    dq "        'general_qualifications': {";
    dq "          'education': 0.0,";
    dq "          'years_of_experience': 0.0,";
    dq "          'total': 0.0";
    dq "        },";
    dq "        'adequacy_for_assignment': {";
    dq "          'relevant_project_experience': 0.0,";
    dq "          'donor_experience': 0.0,";
    dq "          'regional_experience': 0.0,";
    dq "          'total': 0.0";
    dq "        },";
    dq "        'specific_skills_competencies': {";
    dq "          'technical_skills': 0.0,";
    dq "          'language_proficiency': 0.0,";
    dq "          'certifications': 0.0,";
    dq "          'total': 0.0";
    dq "        },";
    dq "        'total_score': 0.0";
    dq "      },";
    dq "      'summary_justification': {";
    dq "        'key_strengths': 'string',";
    dq "        'key_weaknesses': 'string'";
    dq "      },";
    dq "      'detailed_evaluation': [";
    dq "        {";
    dq "          'criterion': 'string',";
    dq "          'weight': 0,";
    dq "          'score': 0.0,";
    dq "          'justification': 'string'";
    dq "        }";
    dq "      ]";
    dq "    }";
    dq "  ],";
    dq "  'comparison_matrix': [";
    dq "    {";
    dq "      'candidate_name': 'string',";
    dq "      'total_score': 0.0,";
    dq "      'rank': 1";
    dq "    }";
    dq "  ],";
    dq "  'final_recommendation': {";
    dq "    'best_candidate': 'Name or None',";
    dq "    'final_decision': 'Highly Suitable | Suitable | Not Suitable | None Suitable (if no one is suitable directly say Not Suitable for all cadidates)',";
    dq "    'justification': {";
    dq "    'detailed_explanation': 'Detailed explanation why best candidate is chosen OR why no one is suitable AND also explain other candidates are not chosen. Must include strengths, weaknesses, and comparison.',";
    dq "    'why_he': 'Why your recommended candidate is the best candidate. Full details explaining strengths, achievements, and suitability.',";
    dq "    'why_not_others': [";
    dq "      {";
    dq "        'candidate_name': 'Candidate 1',";
    dq "        'reason': 'Explain why Candidate 1 was not recommended, including weaknesses or lack of match with ToR.'";
    dq "      },";
    dq "      {";
    dq "        'candidate_name': 'Candidate 2',";
    dq "        'reason': 'Explain why Candidate 2 was not recommended...'";
    dq "      }";
    dq "      // Add more candidates here";
    dq "    ]";
    dq "  }";
    dq "}";
    dq "====================================================";
    [];
    dq "tor_text: <<TOR_TEXT>>";
    dq "cvs: <<CVS_TEXT>>"
  ].

(** The triple-quoted literal: a newline, then every line with its
    newline. *)
Definition template : str :=
  newline :: flat_map (fun l => l ++ [newline]) template_lines.

Definition tor_placeholder : str := u "<<TOR_TEXT>>".
Definition cvs_placeholder : str := u "<<CVS_TEXT>>".

Definition craft_prompt (tor : str) (cv_contents : list cv) : str :=
  replace (replace template tor_placeholder (esc tor))
          cvs_placeholder (cvs_text cv_contents).


(** ** The normalizer on a heap

    The same function with objects that have an identity: lists and
    dictionaries live in a heap and are held by reference, so that
    [copy], [update] and [append] are what they are in Python, and two
    references can name one object. *)

Module Heap.

Definition addr := nat.

(** A Python value as a variable holds it: an immutable scalar, or a
    reference to a list or a dictionary. *)
Inductive ref : Type :=
| RNone
| RBool (b : bool)
| RInt (n : Z)
| RFloat (f : spec_float)
| RStr (s : str)
| RObj (a : addr).

Inductive obj : Type :=
| OList (items : list ref)
| ODict (entries : list (str * ref)).

Definition heap := list obj.

(** How a computation ends: normally, with an exception, or (never, from a
    heap without dangling references) on an address that holds nothing. *)
Inductive outcome (A : Type) : Type :=
| Ret (a : A) (h : heap)
| Exc (e : exn) (h : heap)
| Stuck.
Arguments Ret {A} a h.
Arguments Exc {A} e h.
Arguments Stuck {A}.

Definition M (A : Type) : Type := heap -> outcome A.

Definition ret {A : Type} (a : A) : M A := fun h => Ret a h.

Definition raise {A : Type} (e : exn) : M A := fun h => Exc e h.

Definition stuck {A : Type} : M A := fun _ => Stuck.

Definition bind {A B : Type} (m : M A) (k : A -> M B) : M B :=
  fun h =>
    match m h with
    | Ret a h' => k a h'
    | Exc e h' => Exc e h'
    | Stuck => Stuck
    end.

Notation "x <~ m ;; k" := (bind m (fun x => k))
  (at level 61, m at next level, right associativity).
Notation "m ;;; k" := (bind m (fun _ => k))
  (at level 61, right associativity).

(** A new object gets the next address. *)
Definition alloc (o : obj) : M addr :=
  fun h => Ret (length h) (h ++ [o]).

Definition load (a : addr) : M obj :=
  fun h =>
    match nth_error h a with
    | Some o => Ret o h
    | None => Stuck
    end.

Fixpoint set_nth (h : heap) (a : addr) (o : obj) : heap :=
  match h, a with
  | [], _ => []
  | _ :: h', O => o :: h'
  | x :: h', S a' => x :: set_nth h' a' o
  end.

Definition store (a : addr) (o : obj) : M unit :=
  fun h =>
    match nth_error h a with
    | Some _ => Ret tt (set_nth h a o)
    | None => Stuck
    end.

(** A dictionary display and a list display. *)
Definition dict_lit (entries : list (str * ref)) : M ref :=
  a <~ alloc (ODict entries) ;; ret (RObj a).

Definition list_lit (items : list ref) : M ref :=
  a <~ alloc (OList items) ;; ret (RObj a).

Definition scalar_type_name (r : ref) : str :=
  match r with
  | RNone => u "NoneType"
  | RBool _ => u "bool"
  | RInt _ => u "int"
  | RFloat _ => u "float"
  | RStr _ => u "str"
  | RObj _ => u "object"
  end.

(** [isinstance(r, dict)] *)
Definition is_dict (r : ref) : M bool :=
  match r with
  | RObj a =>
      o <~ load a ;;
      match o with
      | ODict _ => ret true
      | OList _ => ret false
      end
  | _ => ret false
  end.

(** [r.get(k, dflt)] *)
Definition get (r : ref) (k : str) (dflt : ref) : M ref :=
  match r with
  | RObj a =>
      o <~ load a ;;
      match o with
      | ODict d => ret (dict_get d k dflt)
      | OList _ => raise (AttributeError (u "list"))
      end
  | _ => raise (AttributeError (scalar_type_name r))
  end.

(** The entries of a dictionary known to be one. *)
Definition entries_of (r : ref) : M (list (str * ref)) :=
  match r with
  | RObj a =>
      o <~ load a ;;
      match o with
      | ODict d => ret d
      | OList _ => stuck
      end
  | _ => stuck
  end.

(** The entries of the operand of [**]. *)
Definition unpack (r : ref) : M (list (str * ref)) :=
  match r with
  | RObj a =>
      o <~ load a ;;
      match o with
      | ODict d => ret d
      | OList _ => raise (TypeError (u "list"))
      end
  | _ => raise (TypeError (scalar_type_name r))
  end.

(** The items of a list known to be one. *)
Definition items_of (r : ref) : M (list ref) :=
  match r with
  | RObj a =>
      o <~ load a ;;
      match o with
      | OList l => ret l
      | ODict _ => stuck
      end
  | _ => stuck
  end.

(** [d.copy()]: a new dictionary with the same entries. *)
Definition copy (d : ref) : M ref :=
  e <~ entries_of d ;; dict_lit e.

(** [d.update(other)]: [d] is changed in place. *)
Definition update (d other : ref) : M unit :=
  match d with
  | RObj a =>
      e <~ entries_of d ;;
      e' <~ entries_of other ;;
      store a (ODict (dict_update e e'))
  | _ => stuck
  end.

(** [l.append(x)]: [l] is changed in place. *)
Definition append (l : ref) (x : ref) : M unit :=
  match l with
  | RObj a =>
      items <~ items_of l ;;
      store a (OList (items ++ [x]))
  | _ => stuck
  end.

(** [{**d, **other}]: a new dictionary. *)
Definition merge (d other : ref) : M ref :=
  e <~ entries_of d ;;
  e' <~ unpack other ;;
  dict_lit (dict_update e e').

(** [d[k]] *)
Definition item (d : ref) (k : str) : M ref :=
  e <~ entries_of d ;;
  match dict_lookup e k with
  | Some v => ret v
  | None => raise (KeyError k)
  end.

Definition _ensure_list (value : ref) : M ref :=
  match value with
  | RObj a =>
      o <~ load a ;;
      match o with
      | OList _ => ret value
      | ODict _ => list_lit [value]
      end
  | RNone => list_lit []
  | _ => list_lit [value]
  end.

Definition zero : ref := RFloat (S754_zero false).

Definition default_scores : M ref :=
  general <~ dict_lit [ (u "education", zero);
                        (u "years_of_experience", zero);
                        (u "total", zero) ] ;;
  adequacy <~ dict_lit [ (u "relevant_project_experience", zero);
                         (u "donor_experience", zero);
                         (u "regional_experience", zero);
                         (u "total", zero) ] ;;
  specific <~ dict_lit [ (u "technical_skills", zero);
                         (u "language_proficiency", zero);
                         (u "certifications", zero);
                         (u "total", zero) ] ;;
  dict_lit [ (u "general_qualifications", general);
             (u "adequacy_for_assignment", adequacy);
             (u "specific_skills_competencies", specific);
             (u "total_score", zero) ].

Definition default_candidate (default_scores : ref) : M ref :=
  summary <~ dict_lit [ (u "key_strengths", RStr (u "None provided."));
                        (u "key_weaknesses", RStr (u "None provided.")) ] ;;
  detailed <~ list_lit [] ;;
  dict_lit [ (u "candidate_name", RStr (u "Unnamed Candidate"));
             (u "recommendation", RStr (u "Not Evaluated"));
             (u "scores", default_scores);
             (u "summary_justification", summary);
             (u "detailed_evaluation", detailed) ].

Definition criterion (name : string) (weight : Z) : M ref :=
  dict_lit [ (u "criterion", RStr (u name)); (u "weight", RInt weight) ].

Definition default_result : M ref :=
  c1 <~ criterion "Education" 10 ;;
  c2 <~ criterion "Years of Experience" 10 ;;
  c3 <~ criterion "Relevant Project Experience" 25 ;;
  c4 <~ criterion "Donor Experience (WB, ADB, etc.)" 15 ;;
  c5 <~ criterion "Regional Experience" 10 ;;
  c6 <~ criterion "Technical Skills" 15 ;;
  c7 <~ criterion "Language Proficiency" 10 ;;
  c8 <~ criterion "Certifications" 5 ;;
  criteria <~ list_lit [c1; c2; c3; c4; c5; c6; c7; c8] ;;
  candidates <~ list_lit [] ;;
  comparison_matrix <~ list_lit [] ;;
  final_recommendation <~
    dict_lit [ (u "best_candidate", RStr (u "None"));
               (u "final_decision", RStr (u "None Suitable"));
               (u "justification", RStr (u "No suitable candidates found.")) ] ;;
  dict_lit [ (u "tor_text", RStr []);
             (u "criteria", criteria);
             (u "candidates", candidates);
             (u "comparison_matrix", comparison_matrix);
             (u "final_recommendation", final_recommendation) ].

(** The body of the loop over [candidates]. *)
Definition normalize_candidate (default_scores default_candidate : ref)
    (normalized_candidates candidate : ref) : M unit :=
  normalized_candidate <~ copy default_candidate ;;
  name <~ get candidate (u "candidate_name") (RStr (u "Unnamed Candidate")) ;;
  recommendation <~ get candidate (u "recommendation") (RStr (u "Not Evaluated")) ;;
  empty <~ dict_lit [] ;;
  scores <~ get candidate (u "scores") empty ;;
  scores <~ merge default_scores scores ;;
  empty <~ dict_lit [] ;;
  sj <~ get candidate (u "summary_justification") empty ;;
  key_strengths <~ get sj (u "key_strengths") (RStr (u "None provided.")) ;;
  empty <~ dict_lit [] ;;
  sj <~ get candidate (u "summary_justification") empty ;;
  key_weaknesses <~ get sj (u "key_weaknesses") (RStr (u "None provided.")) ;;
  summary <~ dict_lit [ (u "key_strengths", key_strengths);
                        (u "key_weaknesses", key_weaknesses) ] ;;
  empty <~ list_lit [] ;;
  detailed <~ get candidate (u "detailed_evaluation") empty ;;
  detailed <~ _ensure_list detailed ;;
  fields <~ dict_lit [ (u "candidate_name", name);
                       (u "recommendation", recommendation);
                       (u "scores", scores);
                       (u "summary_justification", summary);
                       (u "detailed_evaluation", detailed) ] ;;
  update normalized_candidate fields ;;;
  append normalized_candidates normalized_candidate.

(** The body of the loop over [comparison_matrix]. *)
Definition normalize_matrix_item (normalized_matrix item : ref) : M unit :=
  name <~ get item (u "candidate_name") (RStr (u "Unnamed Candidate")) ;;
  total_score <~ get item (u "total_score") zero ;;
  rank <~ get item (u "rank") (RInt 0) ;;
  entry <~ dict_lit [ (u "candidate_name", name);
                      (u "total_score", total_score);
                      (u "rank", rank) ] ;;
  append normalized_matrix entry.

(** [for x in items: body(x)] *)
Fixpoint for_each (body : ref -> M unit) (items : list ref) : M unit :=
  match items with
  | [] => ret tt
  | x :: rest => body x ;;; for_each body rest
  end.

Definition normalize_result (result : ref) : M ref :=
  default_scores <~ default_scores ;;
  default_candidate <~ default_candidate default_scores ;;
  default_result <~ default_result ;;
  dict_input <~ is_dict result ;;
  if negb dict_input then ret default_result
  else
    empty <~ list_lit [] ;;
    candidates <~ get result (u "candidates") empty ;;
    candidates <~ _ensure_list candidates ;;
    normalized_candidates <~ list_lit [] ;;
    items <~ items_of candidates ;;
    for_each (normalize_candidate default_scores default_candidate
                normalized_candidates) items ;;;
    empty <~ list_lit [] ;;
    comparison_matrix <~ get result (u "comparison_matrix") empty ;;
    comparison_matrix <~ _ensure_list comparison_matrix ;;
    normalized_matrix <~ list_lit [] ;;
    items <~ items_of comparison_matrix ;;
    for_each (normalize_matrix_item normalized_matrix) items ;;;
    empty <~ dict_lit [] ;;
    final_recommendation <~ get result (u "final_recommendation") empty ;;
    best_candidate <~ get final_recommendation (u "best_candidate") (RStr (u "None")) ;;
    final_decision <~ get final_recommendation (u "final_decision")
                        (RStr (u "None Suitable")) ;;
    justification <~ get final_recommendation (u "justification")
                       (RStr (u "No suitable candidates found.")) ;;
    normalized_final_recommendation <~
      dict_lit [ (u "best_candidate", best_candidate);
                 (u "final_decision", final_decision);
                 (u "justification", justification) ] ;;
    tor_text <~ get result (u "tor_text") (RStr []) ;;
    default_criteria <~ item default_result (u "criteria") ;;
    criteria <~ get result (u "criteria") default_criteria ;;
    criteria <~ _ensure_list criteria ;;
    dict_lit [ (u "tor_text", tor_text);
               (u "criteria", criteria);
               (u "candidates", normalized_candidates);
               (u "comparison_matrix", normalized_matrix);
               (u "final_recommendation", normalized_final_recommendation) ].

(** The document a reference stands for, followed to depth [fuel]. *)
Fixpoint all_some {A : Type} (l : list (option A)) : option (list A) :=
  match l with
  | [] => Some []
  | Some x :: l' => option_map (cons x) (all_some l')
  | None :: _ => None
  end.

Fixpoint read (fuel : nat) (h : heap) (r : ref) : option value :=
  match fuel with
  | O => None
  | S fuel' =>
      match r with
      | RNone => Some VNone
      | RBool b => Some (VBool b)
      | RInt n => Some (VInt n)
      | RFloat f => Some (VFloat f)
      | RStr s => Some (VStr s)
      | RObj a =>
          match nth_error h a with
          | Some (OList items) =>
              option_map VList (all_some (map (read fuel' h) items))
          | Some (ODict entries) =>
              option_map VDict
                (all_some (map (fun kv => option_map (pair (fst kv))
                                            (read fuel' h (snd kv)))
                               entries))
          | None => None
          end
      end
  end.

(** How a call ends, with the result read back as a document. *)
Definition observe (fuel : nat) (o : outcome ref) : option (res value) :=
  match o with
  | Ret r h => option_map Ok (read fuel h r)
  | Exc e _ => Some (Raise e)
  | Stuck => None
  end.

End Heap.


(** ** Text extraction and the whole of [CompareCVsView.post] *)

(** What a library call on an uploaded file gives: a value, or an
    exception. *)
Inductive attempt (A : Type) : Type :=
| Got (a : A)
| Failed.
Arguments Got {A} a.
Arguments Failed {A}.

(** An uploaded file, as far as the view uses it: its name, and what each
    of the three readers makes of it. [pdf_pages] is
    [[page.extract_text() for page in PdfReader(file).pages]],
    [docx_paragraphs] is [[para.text for para in Document(file).paragraphs]]
    and [decoded] is [file.read().decode('utf-8', errors='ignore')]. *)
Record upload : Type := {
  name : str;
  pdf_pages : attempt (list (option str));
  docx_paragraphs : attempt (list str);
  decoded : attempt str
}.

(** What the call of the model gives: the text of its response, or the
    message of the exception it raises. *)
Inductive reply : Type :=
| Reply (text : str)
| Failure (message : str).

Definition bad_request (msg : str) : response :=
  JsonResponse (VDict [ (u "error", VStr msg) ]) 400.

(** [not content or not content.strip()] *)
Definition blank (text : str) : bool :=
  match text with
  | [] => true
  | _ :: _ =>
      match strip text with
      | [] => true
      | _ :: _ => false
      end
  end.

(** [not tor], for what [request.POST.get('tor')] gives. *)
Definition missing (tor : option str) : bool :=
  match tor with
  | None => true
  | Some [] => true
  | Some (_ :: _) => false
  end.

Section View.

(** [str.lower] *)
Variable lower : str -> str.

(** [getattr(settings, 'GEMINI_API_KEY', None)] *)
Variable api_key : option str.

(** [model.generate_content(prompt, ...)] and the [text] of its response. *)
Variable generate : str -> reply.

Variable json_loads : str -> option value.

(** Whatever is raised inside the [try], the unsupported file type
    included, is replaced by the one [ValueError] of the handler. *)
Definition extract_text_from_file (file : upload) : res str :=
  let filename := lower (name file) in
  let failed := Raise (ValueError (u "Failed to extract text from " ++ filename)) in
  if endswith filename (u ".pdf") then
    match pdf_pages file with
    | Got pages =>
        Ok (concat (map (fun text => match text with
                                     | Some t => t
                                     | None => []
                                     end) pages))
    | Failed => failed
    end
  else if endswith filename (u ".docx") || endswith filename (u ".doc") then
    match docx_paragraphs file with
    | Got paragraphs => Ok (join [newline] paragraphs)
    | Failed => failed
    end
  else if endswith filename (u ".txt") then
    match decoded file with
    | Got text => Ok text
    | Failed => failed
    end
  else failed.

(** The body of the loop over [cv_files]. *)
Definition read_cv (file : upload) : res cv :=
  text <- extract_text_from_file file ;;
  Ok {| filename := name file; content := text |}.

Definition post (tor : option str) (cv_files : list upload) : response :=
  match tor with
  | None => bad_request (u "ToR is required")
  | Some [] => bad_request (u "ToR is required")
  | Some tor_text =>
      match cv_files with
      | [] => bad_request (u "At least one CV is required")
      | _ :: _ =>
          if 10 <? length cv_files
          then bad_request (u "Maximum 10 CVs allowed")
          else
            match mapM read_cv cv_files with
            | Raise e => error_response (exn_str e)
            | Ok cv_contents =>
                if forallb (fun item => blank (content item)) cv_contents
                then bad_request
                       (u "No readable text extracted from uploaded files.")
                else if missing api_key
                then error_response
                       (u "GEMINI_API_KEY not configured on server.")
                else
                  match generate (craft_prompt tor_text cv_contents) with
                  | Failure message => error_response message
                  | Reply text => respond json_loads text
                  end
            end
      end
  end.

End View.

(** A request with one text file, a model that answers with an empty
    mapping, and a parser that reads it. *)
Definition notes_txt : upload :=
  {| name := u "Notes.TXT";
     pdf_pages := Failed;
     docx_paragraphs := Failed;
     decoded := Got (u "ten years of field work") |}.

Definition photo_png : upload :=
  {| name := u "photo.png";
     pdf_pages := Failed;
     docx_paragraphs := Failed;
     decoded := Got (u "not looked at") |}.

(** Lower case, for the letters of the sample names only. *)
Definition sample_lower (s : str) : str :=
  map (fun c => if (65 <=? c)%N && (c <=? 90)%N then (c + 32)%N else c) s.

Definition sample_generate (prompt : str) : reply := Reply (u "{}").

Definition sample_loads (payload : str) : option value :=
  if str_eqb payload (u "{}") then Some (VDict []) else None.

(** What the normalizer makes of the empty mapping. *)
Definition default_result_of_empty : dict :=
  Eval cbv in
    match normalize_result (VDict []) with
    | Ok (VDict d) => d
    | _ => []
    end.

(** ** Vocabulary of the properties *)

Definition keys {V : Type} (d : list (str * V)) : list str := map fst d.

(** No key occurs twice. *)
Fixpoint distinct (l : list str) : bool :=
  match l with
  | [] => true
  | k :: l' => negb (existsb (str_eqb k) l') && distinct l'
  end.

(** A document as [json.loads] builds it: no dictionary, at any depth,
    holds a key twice. *)
Fixpoint json_value (v : value) : bool :=
  match v with
  | VList items => forallb json_value items
  | VDict entries =>
      distinct (keys entries)
      && forallb (fun kv => match kv with (_, x) => json_value x end) entries
  | _ => true
  end.

(** The field [k] of a value, when the value is a dictionary with that
    key. *)
Definition field (v : value) (k : str) : option value :=
  match v with
  | VDict d => dict_lookup d k
  | _ => None
  end.

(** The value reached from [v] by a path of keys. *)
Fixpoint value_at (v : value) (path : list str) : option value :=
  match path with
  | [] => Some v
  | k :: path' =>
      match field v k with
      | Some x => value_at x path'
      | None => None
      end
  end.

Definition is_mapping (v : value) : bool :=
  match v with
  | VDict _ => true
  | _ => false
  end.

(** The declared top-level fields of a normalized result. *)
Definition result_fields : list str :=
  [ u "tor_text"; u "criteria"; u "candidates"; u "comparison_matrix";
    u "final_recommendation" ].

Definition has_result_fields (v : value) : Prop :=
  exists d, v = VDict d /\ keys d = result_fields.

(** The candidates a mapping input supplies, and those of a result. *)
Definition input_candidates (d : dict) : list value :=
  _ensure_list (dict_get d (u "candidates") (VList [])).

Definition candidates_of (v : value) : list value :=
  match field v (u "candidates") with
  | Some (VList l) => l
  | _ => []
  end.

(** A candidate on which the loop body does not raise: a mapping whose
    [scores] and [summary_justification], if there, are mappings. *)
Definition candidate_shaped (c : value) : bool :=
  match c with
  | VDict d =>
      is_mapping (dict_get d (u "scores") (VDict []))
      && is_mapping (dict_get d (u "summary_justification") (VDict []))
  | _ => false
  end.

(** An input on which [normalize_result] does not raise. *)
Definition well_shaped (x : value) : bool :=
  match x with
  | VDict d =>
      forallb candidate_shaped (input_candidates d)
      && forallb is_mapping
           (_ensure_list (dict_get d (u "comparison_matrix") (VList [])))
      && is_mapping (dict_get d (u "final_recommendation") (VDict []))
  | _ => true
  end.

(** The twelve numeric leaves of a score block, as paths below [scores]. *)
Definition score_leaves : list (list str) :=
  [ [u "general_qualifications"; u "education"];
    [u "general_qualifications"; u "years_of_experience"];
    [u "general_qualifications"; u "total"];
    [u "adequacy_for_assignment"; u "relevant_project_experience"];
    [u "adequacy_for_assignment"; u "donor_experience"];
    [u "adequacy_for_assignment"; u "regional_experience"];
    [u "adequacy_for_assignment"; u "total"];
    [u "specific_skills_competencies"; u "technical_skills"];
    [u "specific_skills_competencies"; u "language_proficiency"];
    [u "specific_skills_competencies"; u "certifications"];
    [u "specific_skills_competencies"; u "total"];
    [u "total_score"] ].

(** A leaf that is there and is not [None]. *)
Definition leaf_present (candidate : value) (leaf : list str) : bool :=
  match value_at candidate (u "scores" :: leaf) with
  | Some VNone => false
  | Some _ => true
  | None => false
  end.

(** The rubric: criterion and weight. *)
Definition rubric : list (string * Z) :=
  [ ("Education"%string, 10); ("Years of Experience"%string, 10);
    ("Relevant Project Experience"%string, 25);
    ("Donor Experience (WB, ADB, etc.)"%string, 15);
    ("Regional Experience"%string, 10); ("Technical Skills"%string, 15);
    ("Language Proficiency"%string, 10); ("Certifications"%string, 5) ]%Z.

Definition rubric_value : value :=
  VList (map (fun cw => criterion (fst cw) (snd cw)) rubric).

Definition weight_of (c : value) : Z :=
  match field c (u "weight") with
  | Some (VInt w) => w
  | _ => 0%Z
  end.

Definition total_weight (criteria : value) : Z :=
  match criteria with
  | VList l => fold_right Z.add 0%Z (map weight_of l)
  | _ => 0%Z
  end.


(** The records the normalizer builds. *)
Definition candidate_record (name recommendation : value) (scores : dict)
    (key_strengths key_weaknesses : value) (detailed : list value) : value :=
  VDict [ (u "candidate_name", name);
          (u "recommendation", recommendation);
          (u "scores", VDict scores);
          (u "summary_justification",
           VDict [ (u "key_strengths", key_strengths);
                   (u "key_weaknesses", key_weaknesses) ]);
          (u "detailed_evaluation", VList detailed) ].

Definition matrix_record (name total_score rank : value) : value :=
  VDict [ (u "candidate_name", name);
          (u "total_score", total_score);
          (u "rank", rank) ].

Definition recommendation_record (best_candidate final_decision justification : value)
  : value :=
  VDict [ (u "best_candidate", best_candidate);
          (u "final_decision", final_decision);
          (u "justification", justification) ].

Definition result_record (tor_text : value) (criteria candidates matrix : list value)
    (final_recommendation : value) : value :=
  VDict [ (u "tor_text", tor_text);
          (u "criteria", VList criteria);
          (u "candidates", VList candidates);
          (u "comparison_matrix", VList matrix);
          (u "final_recommendation", final_recommendation) ].

(** The normalized form of a candidate mapping [d] whose [scores] and
    [summary_justification] are the mappings [scores] and [sj]. *)
Definition normalized_candidate (d scores sj : dict) : value :=
  candidate_record
    (dict_get d (u "candidate_name") (VStr (u "Unnamed Candidate")))
    (dict_get d (u "recommendation") (VStr (u "Not Evaluated")))
    (dict_update default_scores scores)
    (dict_get sj (u "key_strengths") (VStr (u "None provided.")))
    (dict_get sj (u "key_weaknesses") (VStr (u "None provided.")))
    (_ensure_list (dict_get d (u "detailed_evaluation") (VList []))).

Definition normalized_matrix_item (d : dict) : value :=
  matrix_record
    (dict_get d (u "candidate_name") (VStr (u "Unnamed Candidate")))
    (dict_get d (u "total_score") zero)
    (dict_get d (u "rank") (VInt 0)).

Definition normalized_recommendation (d : dict) : value :=
  recommendation_record
    (dict_get d (u "best_candidate") (VStr (u "None")))
    (dict_get d (u "final_decision") (VStr (u "None Suitable")))
    (dict_get d (u "justification") (VStr (u "No suitable candidates found."))).

(** The [scores] a candidate supplies; none is the empty mapping. *)
Definition upstream_scores (c : value) : dict :=
  match field c (u "scores") with
  | Some (VDict scores) => scores
  | _ => []
  end.

(** Sample replies of the model, already decoded. *)
Definition jane_entries : dict :=
  [ (u "tor_text", VStr (u "x"));
    (u "candidates",
     VDict [ (u "candidate_name", VStr (u "Jane Doe"));
             (u "scores", VDict [ (u "total_score", VInt 71) ]);
             (u "detailed_evaluation", VStr (u "strong")) ]);
    (u "comparison_matrix",
     VList [ VDict [ (u "candidate_name", VStr (u "Jane Doe"));
                     (u "rank", VInt 1);
                     (u "note", VNone) ] ]) ].

Definition jane : value := VDict jane_entries.

Definition partial_scores_entries : dict :=
  [ (u "candidates",
     VList [ VDict [ (u "scores",
                      VDict [ (u "general_qualifications",
                               VDict [ (u "education", VInt 5) ]) ]) ] ]) ].

Definition partial_scores : value := VDict partial_scores_entries.

(** An opening brace with a closing brace somewhere after it. *)
Fixpoint brace_pair (s : str) : bool :=
  match s with
  | [] => false
  | c :: s' =>
      N.eqb c lbrace && existsb (N.eqb rbrace) s' || brace_pair s'
  end.

(** [old] occurs in [s]. *)
Fixpoint contains (s old : str) : bool :=
  startswith s old
  || match s with
     | [] => false
     | _ :: s' => contains s' old
     end.

(** The instruction body: the template up to the two lines that carry the
    placeholders. *)
Definition instruction : str :=
  newline :: flat_map (fun l => l ++ [newline]) (firstn 116 template_lines).

(** The template with the escaped reference text and the document list in
    the places of the two placeholders. *)
Definition substituted (tor : str) (cv_contents : list cv) : str :=
  instruction ++ u "tor_text: " ++ esc tor ++ [newline]
    ++ u "cvs: " ++ cvs_text cv_contents ++ [newline].

Definition one_cv : list cv := [ {| filename := u "a.txt"; content := u "x" |} ].

(** A reference to an object that did not exist when the heap had [b]
    objects. *)
Definition fresh (b : nat) (r : Heap.ref) : Prop :=
  exists a, r = Heap.RObj a /\ b <= a.

(** The first [b] objects are the same in [h'] as in [h], and no object
    has gone. *)
Definition unchanged (b : nat) (h h' : Heap.heap) : Prop :=
  firstn b h' = firstn b h /\ length h <= length h'.

(** Run from any heap of at least [b] objects, [m] leaves the first [b]
    as they were, whether it returns or raises, and what it returns
    satisfies [Q]. *)
Definition frame {A : Type} (b : nat) (m : Heap.M A) (Q : A -> Prop) : Prop :=
  forall h, b <= length h ->
    match m h with
    | Heap.Ret a h' => unchanged b h h' /\ Q a
    | Heap.Exc _ h' => unchanged b h h'
    | Heap.Stuck => True
    end.

(** A heap that holds the reply
    [{"candidates": [{"candidate_name": "J", "detailed_evaluation": [1]}],
      "criteria": []}], at address 0. *)
Definition sample_heap : Heap.heap :=
  [ Heap.ODict [ (u "candidates", Heap.RObj 1); (u "criteria", Heap.RObj 4) ];
    Heap.OList [ Heap.RObj 2 ];
    Heap.ODict [ (u "candidate_name", Heap.RStr (u "J"));
                 (u "detailed_evaluation", Heap.RObj 3) ];
    Heap.OList [ Heap.RInt 1 ];
    Heap.OList [] ].

(** A heap that holds [{"candidates": "abc", "final_recommendation": null}]
    at address 0. *)
Definition malformed_heap : Heap.heap :=
  [ Heap.ODict [ (u "candidates", Heap.RStr (u "abc"));
                 (u "final_recommendation", Heap.RNone) ] ].

(** The reference and the heap a call on the reply of [sample_heap] ends
    with. *)
Definition sample_result : Heap.ref :=
  Eval cbv in
    match Heap.normalize_result (Heap.RObj 0) sample_heap with
    | Heap.Ret r _ => r
    | _ => Heap.RNone
    end.

Definition sample_heap_after : Heap.heap :=
  Eval cbv in
    match Heap.normalize_result (Heap.RObj 0) sample_heap with
    | Heap.Ret _ h => h
    | _ => []
    end.

(** The field [k] of a value, or [dflt] when it has none. *)
Definition field_or (v : value) (k : str) (dflt : value) : value :=
  match field v k with
  | Some x => x
  | None => dflt
  end.

(** The entries of the comparison matrix a mapping input supplies. *)
Definition input_matrix (d : dict) : list value :=
  _ensure_list (dict_get d (u "comparison_matrix") (VList [])).

Definition keys_of (v : value) : list str :=
  match v with
  | VDict d => keys d
  | _ => []
  end.

(** A text with no white space at either end. *)
Definition trimmed (s : str) : bool :=
  match s with
  | [] => true
  | c :: _ => negb (isspace c) && negb (isspace (last s 0%N))
  end.

(** A reply that carries its payload in a code fence, with white space
    [w1] to [w4] around the fence and inside it. *)
Definition fenced (w1 w2 payload w3 w4 : str) : str :=
  w1 ++ u "```json" ++ w2 ++ payload ++ w3 ++ u "```" ++ w4.

Definition status_of (r : response) : nat :=
  match r with
  | JsonResponse _ status => status
  end.

Definition body_of (r : response) : value :=
  match r with
  | JsonResponse body _ => body
  end.

(** Where a string literal ends whose body starts at [s]: the position of
    the first double quote that no backslash escapes. *)
Fixpoint closing_quote (s : str) : option nat :=
  match s with
  | [] => None
  | c :: rest =>
      if N.eqb c backslash then
        match rest with
        | _ :: rest' => option_map (fun n => S (S n)) (closing_quote rest')
        | [] => None
        end
      else if N.eqb c dquote then Some 0
      else option_map S (closing_quote rest)
  end.

(** No character of [s] is one that [esc] changes. *)
Definition plain (s : str) : bool :=
  forallb (fun c => negb (N.eqb c backslash) && negb (N.eqb c dquote)) s.

(** The fields that [normalize_result] coerces to a list. *)
Definition list_fields : list str :=
  [ u "candidates"; u "comparison_matrix"; u "criteria" ].

(** * Properties *)

Unset Implicit Arguments.

(** ** Escaping *)

Lemma startswith_single (x c : N) (s : str) :
  startswith (x :: s) [c] = N.eqb x c.
Proof. cbn [startswith]. apply andb_true_r. Qed.

Lemma replace_single (s : str) (c : N) (new : str) :
  replace s [c] new = flat_map (fun x => if N.eqb x c then new else [x]) s.
Proof.
  unfold replace.
  induction s as [|x s IH]; [reflexivity|].
  cbn [replace_from flat_map length Nat.sub]. rewrite startswith_single.
  destruct (N.eqb x c); cbn [app]; now rewrite IH.
Qed.

Lemma esc_flat_map (t : str) : esc t = flat_map esc_char t.
Proof.
  unfold esc. rewrite !replace_single.
  induction t as [|c t IH]; simpl; [reflexivity|].
  rewrite flat_map_app, IH. f_equal.
  unfold esc_char.
  destruct (N.eqb_spec c backslash) as [->|Hb]; [reflexivity|].
  simpl. rewrite app_nil_r. reflexivity.
Qed.

Lemma unescape_esc_char (c : N) (rest : str) :
  unescape (esc_char c ++ rest) = c :: unescape rest.
Proof.
  unfold esc_char.
  destruct (N.eqb_spec c backslash) as [->|Hb]; [reflexivity|].
  destruct (N.eqb_spec c dquote) as [->|Hq]; [reflexivity|].
  simpl. apply N.eqb_neq in Hb. now rewrite Hb.
Qed.

(** C5. Reading back the escaped form of any text, mapping an escaped
    backslash to a backslash and an escaped double quote to a double quote,
    gives the text itself; this holds for every sequence of characters, the
    printable ones included. *)
Theorem unescape_esc (t : str) : unescape (esc t) = t.
Proof.
  rewrite esc_flat_map.
  induction t as [|c t IH]; [reflexivity|].
  change (flat_map esc_char (c :: t)) with (esc_char c ++ flat_map esc_char t).
  now rewrite unescape_esc_char, IH.
Qed.

Example unescape_esc_example :
  let t := u "He said " ++ [dquote] ++ u "go" ++ [dquote] ++ u " \ now" in
  esc t = u "He said \" ++ [dquote] ++ u "go\" ++ [dquote] ++ u " \\ now"
  /\ unescape (esc t) = t.
Proof. split; reflexivity. Qed.

(** ** Strings as keys *)

Lemma str_eqb_eq (a b : str) : str_eqb a b = true <-> a = b.
Proof.
  revert b; induction a as [|x a IH]; intros [|y b]; simpl;
    try (split; [discriminate | discriminate]); [tauto|].
  rewrite andb_true_iff, N.eqb_eq, IH.
  split; [intros [-> ->]; reflexivity | intros [= -> ->]; auto].
Qed.

Lemma str_eqb_refl (a : str) : str_eqb a a = true.
Proof. now apply str_eqb_eq. Qed.

Lemma str_eqb_neq (a b : str) : str_eqb a b = false <-> a <> b.
Proof.
  rewrite <- str_eqb_eq. destruct (str_eqb a b); split; congruence.
Qed.

Lemma str_eqb_spec (a b : str) : reflect (a = b) (str_eqb a b).
Proof.
  destruct (str_eqb a b) eqn:E; constructor.
  - now apply str_eqb_eq.
  - now apply str_eqb_neq.
Qed.

Lemma distinct_NoDup (l : list str) : distinct l = true -> NoDup l.
Proof.
  induction l as [|k l IH]; simpl; [constructor|].
  rewrite andb_true_iff, negb_true_iff. intros [Hk Hl].
  constructor; [|auto].
  intros Hin.
  assert (existsb (str_eqb k) l = true) as E
    by (apply existsb_exists; exists k; split; [assumption | apply str_eqb_refl]).
  congruence.
Qed.

(** ** Dictionaries in insertion order *)

Section DictFacts.

Variable V : Type.
Implicit Types (d o p : list (str * V)) (k : str) (v : V).

Lemma dict_lookup_None d k : dict_lookup d k = None <-> ~ In k (keys d).
Proof.
  induction d as [|[k' v'] d IH]; simpl; [tauto|].
  destruct (str_eqb_spec k' k) as [->|Hne].
  - split; [discriminate | intros H; exfalso; apply H; now left].
  - rewrite IH. split; [intros H [E|Hin]; auto | intros H Hin; apply H; now right].
Qed.

Lemma dict_lookup_set_same d k v : dict_lookup (dict_set d k v) k = Some v.
Proof.
  induction d as [|[k' v'] d IH]; simpl.
  - now rewrite str_eqb_refl.
  - destruct (str_eqb k' k) eqn:E; simpl; now rewrite E.
Qed.

Lemma dict_lookup_set_other d k k' v :
  k <> k' -> dict_lookup (dict_set d k v) k' = dict_lookup d k'.
Proof.
  intros Hne. assert (Hb := proj2 (str_eqb_neq k k') Hne).
  induction d as [|[k0 v0] d IH]; simpl.
  - now rewrite Hb.
  - destruct (str_eqb_spec k0 k) as [->|Hk]; simpl.
    + now rewrite Hb.
    + now rewrite IH.
Qed.

Lemma dict_set_keys d k v :
  keys (dict_set d k v)
  = match dict_lookup d k with
    | Some _ => keys d
    | None => keys d ++ [k]
    end.
Proof.
  induction d as [|[k' v'] d IH]; simpl; [reflexivity|].
  destruct (str_eqb k' k); simpl; [reflexivity|].
  rewrite IH. now destruct (dict_lookup d k).
Qed.

Lemma dict_set_app_r p d k v :
  ~ In k (keys p) -> dict_set (p ++ d) k v = p ++ dict_set d k v.
Proof.
  induction p as [|[k' v'] p IH]; simpl; intros Hk; [reflexivity|].
  destruct (str_eqb_spec k' k) as [->|Hne]; [tauto|].
  now rewrite IH by tauto.
Qed.

Lemma dict_set_fresh d k v :
  ~ In k (keys d) -> dict_set d k v = d ++ [(k, v)].
Proof.
  intros Hk. rewrite <- (app_nil_r d) at 1.
  now rewrite dict_set_app_r.
Qed.

Lemma dict_set_NoDup d k v :
  NoDup (keys d) -> NoDup (keys (dict_set d k v)).
Proof.
  intros Hd. rewrite dict_set_keys.
  destruct (dict_lookup d k) eqn:E; [assumption|].
  apply dict_lookup_None in E.
  apply NoDup_app; [assumption | repeat constructor; simpl; tauto |].
  intros x Hx [<-|[]]. contradiction.
Qed.

Lemma dict_update_cons d kv o :
  dict_update d (kv :: o) = dict_update (dict_set d (fst kv) (snd kv)) o.
Proof. reflexivity. Qed.

(** Updating keeps the keys of [d] in front and never doubles a key. *)
Lemma dict_update_keys o : forall d,
  NoDup (keys d) ->
  NoDup (keys (dict_update d o))
  /\ exists rest, keys (dict_update d o) = keys d ++ rest.
Proof.
  induction o as [|[k v] o IH]; intros d Hd.
  - split; [assumption | exists []; now rewrite app_nil_r].
  - rewrite dict_update_cons. simpl fst; simpl snd.
    destruct (IH (dict_set d k v) (dict_set_NoDup d k v Hd)) as [Hn [rest Hr]].
    split; [assumption|].
    rewrite Hr, dict_set_keys.
    destruct (dict_lookup d k); [now exists rest|].
    exists (k :: rest). now rewrite <- app_assoc.
Qed.

(** Updating with entries under the very keys of [d] gives those
    entries. *)
Lemma dict_update_same_keys o : forall p d,
  keys d = keys o ->
  NoDup (keys o) ->
  (forall k, In k (keys p) -> ~ In k (keys o)) ->
  dict_update (p ++ d) o = p ++ o.
Proof.
  induction o as [|[k v] o IH]; intros p d Hk Hn Hp.
  - destruct d; [reflexivity | discriminate].
  - destruct d as [|[k0 v0] d]; [discriminate|].
    simpl in Hk. injection Hk as -> Hk.
    rewrite dict_update_cons. simpl fst; simpl snd.
    rewrite dict_set_app_r.
    2:{ intros Hin. apply (Hp k Hin). now left. }
    simpl. rewrite str_eqb_refl.
    change (p ++ (k, v) :: d) with (p ++ [(k, v)] ++ d).
    rewrite app_assoc, IH; [now rewrite <- app_assoc | assumption | |].
    + now inversion Hn.
    + intros x Hx Hxo. unfold keys in Hx. rewrite map_app in Hx.
      apply in_app_or in Hx. destruct Hx as [Hx|[<-|[]]].
      * apply (Hp x Hx). now right.
      * simpl in Hn. inversion Hn. contradiction.
Qed.

(** Updating with entries under new keys appends them. *)
Lemma dict_update_fresh o : forall d,
  NoDup (keys o) ->
  (forall k, In k (keys o) -> ~ In k (keys d)) ->
  dict_update d o = d ++ o.
Proof.
  induction o as [|[k v] o IH]; intros d Hn Hd.
  - now rewrite app_nil_r.
  - rewrite dict_update_cons. simpl fst; simpl snd.
    rewrite dict_set_fresh by (apply Hd; now left).
    simpl in Hn. inversion Hn as [|? ? Hk Hn']; subst.
    rewrite IH; [now rewrite <- app_assoc | assumption |].
    intros x Hx Hin. unfold keys in Hin. rewrite map_app in Hin.
    apply in_app_or in Hin. destruct Hin as [Hin|[<-|[]]].
    + apply (Hd x); [now right | assumption].
    + contradiction.
Qed.

Lemma dict_update_app d o1 o2 :
  dict_update d (o1 ++ o2) = dict_update (dict_update d o1) o2.
Proof. apply fold_left_app. Qed.

(** A dictionary that starts with the keys of [d] absorbs [d]. *)
Lemma dict_update_absorb d o rest :
  NoDup (keys o) -> keys o = keys d ++ rest -> dict_update d o = o.
Proof.
  intros Hn Hk.
  assert (keys (firstn (length d) o) = keys d) as H1.
  { unfold keys in *. rewrite <- firstn_map, Hk.
    rewrite <- (length_map fst d), firstn_app, Nat.sub_diag, firstn_all.
    simpl. apply app_nil_r. }
  rewrite <- (firstn_skipn (length d) o) in Hn.
  rewrite <- (firstn_skipn (length d) o) at 1 2.
  unfold keys in Hn. rewrite map_app in Hn.
  rewrite dict_update_app.
  assert (dict_update d (firstn (length d) o) = firstn (length d) o) as ->.
  { apply (dict_update_same_keys (firstn (length d) o) [] d).
    - now symmetry.
    - eapply NoDup_app_remove_r; eassumption.
    - intros x []. }
  apply dict_update_fresh.
  - eapply NoDup_app_remove_l; eassumption.
  - intros x Hx Hin. unfold keys in Hx, Hin.
    clear - Hn Hx Hin.
    induction (map fst (firstn (length d) o)) as [|y l IH]; [destruct Hin|].
    simpl in Hn. inversion Hn as [|? ? Hy Hn']; subst.
    destruct Hin as [<-|Hin]; [|auto].
    apply Hy, in_or_app. now right.
Qed.

Lemma dict_update_idem d o :
  NoDup (keys d) -> dict_update d (dict_update d o) = dict_update d o.
Proof.
  intros Hd. destruct (dict_update_keys o d Hd) as [Hn [rest Hr]].
  eapply dict_update_absorb; eassumption.
Qed.

(** With distinct keys in [o], a lookup after the update sees [o]
    first. *)
Lemma dict_lookup_update o : forall d k,
  NoDup (keys o) ->
  dict_lookup (dict_update d o) k
  = match dict_lookup o k with
    | Some v => Some v
    | None => dict_lookup d k
    end.
Proof.
  induction o as [|[k1 v1] o IH]; intros d k Hn; [reflexivity|].
  rewrite dict_update_cons. simpl fst; simpl snd.
  simpl in Hn. inversion Hn as [|? ? Hk Hn']; subst.
  rewrite IH by assumption. simpl.
  destruct (str_eqb_spec k1 k) as [->|Hne].
  - apply dict_lookup_None in Hk. rewrite Hk.
    apply dict_lookup_set_same.
  - destruct (dict_lookup o k); [reflexivity|].
    now apply dict_lookup_set_other.
Qed.

End DictFacts.

(** ** Loops that may raise *)

Section MapM.

Variables (A B : Type) (f : A -> res B).

Lemma mapM_Forall2 (l : list A) : forall l',
  mapM f l = Ok l' -> Forall2 (fun a b => f a = Ok b) l l'.
Proof.
  induction l as [|a l IH]; simpl; intros l' H.
  - injection H as <-. constructor.
  - destruct (f a) as [b|e] eqn:Ea; simpl in H; [|discriminate].
    destruct (mapM f l) as [bs|e]; simpl in H; [|discriminate].
    injection H as <-. constructor; auto.
Qed.

Lemma Forall2_mapM (l : list A) (l' : list B) :
  Forall2 (fun a b => f a = Ok b) l l' -> mapM f l = Ok l'.
Proof.
  induction 1 as [|a b l l' Hab _ IH]; simpl; [reflexivity|].
  now rewrite Hab, IH.
Qed.

Variable good : A -> bool.
Hypothesis good_returns : forall a, good a = true -> exists b, f a = Ok b.
Hypothesis bad_raises : forall a, good a = false -> exists e, f a = Raise e.

Lemma mapM_returns (l : list A) :
  forallb good l = true -> exists l', mapM f l = Ok l'.
Proof.
  induction l as [|a l IH]; simpl; [now exists []|].
  rewrite andb_true_iff. intros [Ha Hl].
  destruct (good_returns a Ha) as [b ->].
  destruct (IH Hl) as [bs ->]. simpl. now exists (b :: bs).
Qed.

Lemma mapM_raises (l : list A) :
  forallb good l = false -> exists e, mapM f l = Raise e.
Proof.
  induction l as [|a l IH]; simpl; [discriminate|].
  destruct (good a) eqn:Ha; simpl; intros Hl.
  - destruct (good_returns a Ha) as [b ->].
    destruct (IH Hl) as [e ->]. simpl. now exists e.
  - destruct (bad_raises a Ha) as [e ->]. simpl. now exists e.
Qed.

End MapM.

(** ** The normalizer, step by step *)

Lemma normalize_candidate_dict (d : dict) :
  normalize_candidate (VDict d)
  = (scores <- unpack_mapping (dict_get d (u "scores") (VDict [])) ;;
     key_strengths <-
       py_get (dict_get d (u "summary_justification") (VDict []))
              (u "key_strengths") (VStr (u "None provided.")) ;;
     key_weaknesses <-
       py_get (dict_get d (u "summary_justification") (VDict []))
              (u "key_weaknesses") (VStr (u "None provided.")) ;;
     Ok (candidate_record
           (dict_get d (u "candidate_name") (VStr (u "Unnamed Candidate")))
           (dict_get d (u "recommendation") (VStr (u "Not Evaluated")))
           (dict_update default_scores scores)
           key_strengths key_weaknesses
           (_ensure_list (dict_get d (u "detailed_evaluation") (VList []))))).
Proof. reflexivity. Qed.

Lemma normalize_candidate_inv (c nc : value) :
  normalize_candidate c = Ok nc ->
  exists d scores sj,
    c = VDict d
    /\ dict_get d (u "scores") (VDict []) = VDict scores
    /\ dict_get d (u "summary_justification") (VDict []) = VDict sj
    /\ nc = normalized_candidate d scores sj.
Proof.
  destruct c as [| | | | | |d]; try discriminate.
  rewrite normalize_candidate_dict.
  destruct (dict_get d (u "scores") (VDict [])) as [| | | | | |scores] eqn:Es;
    try discriminate.
  destruct (dict_get d (u "summary_justification") (VDict []))
    as [| | | | | |sj] eqn:Ej; try discriminate.
  intros [= <-]. exists d, scores, sj. repeat split; assumption.
Qed.

Lemma normalize_candidate_returns (c : value) :
  candidate_shaped c = true -> exists nc, normalize_candidate c = Ok nc.
Proof.
  destruct c as [| | | | | |d]; try discriminate.
  unfold candidate_shaped. rewrite normalize_candidate_dict, andb_true_iff.
  intros [Hs Hj].
  destruct (dict_get d (u "scores") (VDict [])); try discriminate Hs.
  destruct (dict_get d (u "summary_justification") (VDict []));
    try discriminate Hj.
  eexists. reflexivity.
Qed.

Lemma normalize_candidate_raises (c : value) :
  candidate_shaped c = false -> exists e, normalize_candidate c = Raise e.
Proof.
  destruct c as [| | | | | |d]; try (intros _; eexists; reflexivity).
  unfold candidate_shaped. rewrite normalize_candidate_dict.
  destruct (dict_get d (u "scores") (VDict []));
    try (intros _; eexists; reflexivity).
  destruct (dict_get d (u "summary_justification") (VDict []));
    try (intros _; eexists; reflexivity).
  discriminate.
Qed.

Lemma normalize_matrix_item_inv (item entry : value) :
  normalize_matrix_item item = Ok entry ->
  exists d, item = VDict d /\ entry = normalized_matrix_item d.
Proof.
  destruct item as [| | | | | |d]; try discriminate.
  intros [= <-]. now exists d.
Qed.

Lemma normalize_matrix_item_returns (item : value) :
  is_mapping item = true -> exists entry, normalize_matrix_item item = Ok entry.
Proof.
  destruct item; try discriminate. intros _. eexists. reflexivity.
Qed.

Lemma normalize_matrix_item_raises (item : value) :
  is_mapping item = false -> exists e, normalize_matrix_item item = Raise e.
Proof.
  destruct item; try discriminate; intros _; eexists; reflexivity.
Qed.

Lemma normalize_final_recommendation_inv (fr nfr : value) :
  normalize_final_recommendation fr = Ok nfr ->
  exists d, fr = VDict d /\ nfr = normalized_recommendation d.
Proof.
  destruct fr as [| | | | | |d]; try discriminate.
  intros [= <-]. now exists d.
Qed.

Lemma normalize_result_dict (d : dict) :
  normalize_result (VDict d)
  = (normalized_candidates <- mapM normalize_candidate (input_candidates d) ;;
     normalized_matrix <-
       mapM normalize_matrix_item
         (_ensure_list (dict_get d (u "comparison_matrix") (VList []))) ;;
     normalized_final_recommendation <-
       normalize_final_recommendation
         (dict_get d (u "final_recommendation") (VDict [])) ;;
     Ok (result_record
           (dict_get d (u "tor_text") (VStr []))
           (_ensure_list (dict_get d (u "criteria") rubric_value))
           normalized_candidates normalized_matrix
           normalized_final_recommendation)).
Proof. reflexivity. Qed.

Lemma normalize_result_inv (d : dict) (r : value) :
  normalize_result (VDict d) = Ok r ->
  exists ncs nm fr,
    mapM normalize_candidate (input_candidates d) = Ok ncs
    /\ mapM normalize_matrix_item
         (_ensure_list (dict_get d (u "comparison_matrix") (VList []))) = Ok nm
    /\ dict_get d (u "final_recommendation") (VDict []) = VDict fr
    /\ r = result_record
             (dict_get d (u "tor_text") (VStr []))
             (_ensure_list (dict_get d (u "criteria") rubric_value))
             ncs nm (normalized_recommendation fr).
Proof.
  rewrite normalize_result_dict.
  destruct (mapM normalize_candidate (input_candidates d)) as [ncs|]; [|discriminate].
  destruct (mapM normalize_matrix_item _) as [nm|]; [|discriminate].
  unfold bind at 1 2.
  destruct (normalize_final_recommendation _) as [nfr|] eqn:Ef; [|discriminate].
  apply normalize_final_recommendation_inv in Ef as [fr [Efr ->]].
  intros [= <-]. exists ncs, nm, fr. repeat split; assumption.
Qed.

Lemma normalize_result_default (x : value) :
  is_mapping x = false -> normalize_result x = Ok (VDict default_result).
Proof. destruct x; try discriminate; reflexivity. Qed.

(** ** Which inputs the normalizer accepts *)

(** C1, as stated, fails: a mapping whose [candidates] is a string, or a
    sequence with an element that is not a mapping, or whose
    [final_recommendation] is [None], makes [normalize_result] raise. *)
Lemma normalize_result_raises_on_malformed :
  normalize_result (VDict [ (u "candidates", VStr (u "abc")) ])
    = Raise (AttributeError (u "str"))
  /\ normalize_result (VDict [ (u "candidates", VList [ VInt 1 ]) ])
    = Raise (AttributeError (u "int"))
  /\ normalize_result (VDict [ (u "final_recommendation", VNone) ])
    = Raise (AttributeError (u "NoneType"))
  /\ ~ (forall x, exists r, normalize_result x = Ok r /\ has_result_fields r).
Proof.
  repeat split; try reflexivity.
  intros H.
  destruct (H (VDict [ (u "candidates", VStr (u "abc")) ])) as [r [Hr _]].
  discriminate Hr.
Qed.

Lemma result_record_fields (t : value) (crit ncs nm : list value) (fr : value) :
  has_result_fields (result_record t crit ncs nm fr).
Proof. eexists. split; reflexivity. Qed.

(** C1, amended. [normalize_result] returns a result with every declared
    top-level field exactly on the well-shaped inputs: every value that is
    not a mapping, and every mapping whose candidates (after coercion to a
    list) are mappings with mapping-valued [scores] and
    [summary_justification] where present, whose comparison matrix entries
    are mappings, and whose [final_recommendation], where present, is a
    mapping. On every other input it raises. *)
Theorem normalize_result_returns_iff (x : value) :
  (exists r, normalize_result x = Ok r /\ has_result_fields r)
  <-> well_shaped x = true.
Proof.
  destruct (is_mapping x) eqn:Ex.
  2:{ rewrite (normalize_result_default x Ex).
      split.
      - intros _. destruct x; try reflexivity; discriminate.
      - intros _. eexists. split; [reflexivity|]. eexists. split; reflexivity. }
  destruct x as [| | | | | |d]; try discriminate. clear Ex.
  rewrite normalize_result_dict. unfold well_shaped.
  destruct (forallb candidate_shaped (input_candidates d)) eqn:E1.
  2:{ destruct (mapM_raises _ _ normalize_candidate candidate_shaped
                  normalize_candidate_returns normalize_candidate_raises _ E1)
        as [e ->].
      split; [intros [r [[=] _]] | discriminate]. }
  destruct (mapM_returns _ _ normalize_candidate candidate_shaped
              normalize_candidate_returns _ E1) as [ncs ->].
  destruct (forallb is_mapping _) eqn:E2.
  2:{ destruct (mapM_raises _ _ normalize_matrix_item is_mapping
                  normalize_matrix_item_returns normalize_matrix_item_raises _ E2)
        as [e ->].
      split; [intros [r [[=] _]] | discriminate]. }
  destruct (mapM_returns _ _ normalize_matrix_item is_mapping
              normalize_matrix_item_returns _ E2) as [nm ->].
  unfold bind at 1 2.
  destruct (dict_get d (u "final_recommendation") (VDict []));
    try (split; [intros [r [[=] _]] | discriminate]).
  split; [reflexivity|]. intros _.
  eexists. split; [reflexivity|]. apply result_record_fields.
Qed.

(** ** Fields of the result *)

Lemma result_record_candidates (t : value) (crit ncs nm : list value) (fr : value) :
  candidates_of (result_record t crit ncs nm fr) = ncs.
Proof. reflexivity. Qed.

Lemma normalize_result_candidates (d : dict) (r : value) :
  normalize_result (VDict d) = Ok r ->
  Forall2 (fun c nc =>
             exists cd scores sj,
               c = VDict cd
               /\ dict_get cd (u "scores") (VDict []) = VDict scores
               /\ dict_get cd (u "summary_justification") (VDict []) = VDict sj
               /\ nc = normalized_candidate cd scores sj)
          (input_candidates d) (candidates_of r).
Proof.
  intros H. apply normalize_result_inv in H as (ncs & nm & fr & Hc & _ & _ & ->).
  rewrite result_record_candidates.
  apply mapM_Forall2 in Hc.
  eapply Forall2_impl; [|exact Hc].
  intros c nc. apply normalize_candidate_inv.
Qed.

(** C8, as stated, fails: a [tor_text] that is not a string is passed
    through, not replaced by the empty string. *)
Lemma tor_text_number_passed_through :
  exists r,
    normalize_result (VDict [ (u "tor_text", VInt 5) ]) = Ok r
    /\ field r (u "tor_text") = Some (VInt 5)
    /\ field r (u "tor_text") <> Some (VStr []).
Proof. eexists. split; [reflexivity | split; [reflexivity | discriminate]]. Qed.

(** C8, amended. For a mapping input on which [normalize_result] returns,
    the [tor_text] of the result is the input's [tor_text] whatever its
    type, and the empty string when the input has none. *)
Theorem normalize_result_tor_text (d : dict) (r : value) :
  normalize_result (VDict d) = Ok r ->
  field r (u "tor_text")
  = Some (match dict_lookup d (u "tor_text") with
          | Some v => v
          | None => VStr []
          end).
Proof.
  intros H. apply normalize_result_inv in H as (ncs & nm & fr & _ & _ & _ & ->).
  reflexivity.
Qed.

Lemma normalize_result_tor_text_witness :
  exists r,
    normalize_result jane = Ok r /\ field r (u "tor_text") = Some (VStr (u "x")).
Proof.
  eexists. split; [reflexivity|].
  exact (normalize_result_tor_text jane_entries _ eq_refl).
Defined.

(** C3, as stated, fails: an empty [criteria] stays empty. *)
Lemma empty_criteria_stay_empty :
  exists r,
    normalize_result (VDict [ (u "criteria", VList []) ]) = Ok r
    /\ field r (u "criteria") = Some (VList [])
    /\ field r (u "criteria") <> Some rubric_value.
Proof. eexists. split; [reflexivity | split; [reflexivity | discriminate]]. Qed.

(** C3, amended. For a mapping input on which [normalize_result] returns,
    the [criteria] of the result is the rubric of eight entries, of total
    weight 100, when the input has no [criteria] key; when it has one, it
    is the value under that key coerced to a list, which is empty for an
    empty list and for [None]. *)
Theorem normalize_result_criteria (d : dict) (r : value) :
  normalize_result (VDict d) = Ok r ->
  field r (u "criteria")
  = Some (match dict_lookup d (u "criteria") with
          | Some v => VList (_ensure_list v)
          | None => rubric_value
          end)
  /\ length rubric = 8
  /\ total_weight rubric_value = 100%Z.
Proof.
  intros H. apply normalize_result_inv in H as (ncs & nm & fr & _ & _ & _ & ->).
  split; [|split; reflexivity].
  unfold result_record, field, dict_get.
  destruct (dict_lookup d (u "criteria")); reflexivity.
Qed.

Lemma normalize_result_criteria_witness :
  exists r,
    normalize_result jane = Ok r /\ field r (u "criteria") = Some rubric_value.
Proof.
  eexists. split; [reflexivity|].
  exact (proj1 (normalize_result_criteria jane_entries _ eq_refl)).
Defined.



(** ** The score block *)

Lemma default_scores_NoDup : NoDup (keys default_scores).
Proof. apply distinct_NoDup. reflexivity. Qed.

Lemma json_value_distinct (d : dict) :
  json_value (VDict d) = true -> NoDup (keys d).
Proof.
  simpl. rewrite andb_true_iff. intros [H _]. now apply distinct_NoDup.
Qed.

Lemma json_value_lookup (d : dict) (k : str) (v : value) :
  json_value (VDict d) = true -> dict_lookup d k = Some v -> json_value v = true.
Proof.
  simpl. rewrite andb_true_iff. intros [_ H].
  induction d as [|[k' v'] d IH]; simpl in *; [discriminate|].
  apply andb_true_iff in H as [Hv Hd].
  destruct (str_eqb k' k); [intros [= <-]; assumption | auto].
Qed.

Lemma json_value_dict_get (d : dict) (k : str) (dflt : value) :
  json_value (VDict d) = true -> json_value dflt = true ->
  json_value (dict_get d k dflt) = true.
Proof.
  intros Hd Hdflt. unfold dict_get.
  destruct (dict_lookup d k) eqn:E; [|assumption].
  eapply json_value_lookup; eassumption.
Qed.

Lemma json_value_ensure_list (v : value) :
  json_value v = true -> Forall (fun x => json_value x = true) (_ensure_list v).
Proof.
  intros H.
  destruct v; simpl; try (constructor; [assumption | constructor]).
  - constructor.
  - simpl in H. apply Forall_forall. now apply forallb_forall.
Qed.

Lemma upstream_scores_dict_get (cd scores : dict) :
  dict_get cd (u "scores") (VDict []) = VDict scores ->
  upstream_scores (VDict cd) = scores.
Proof.
  unfold upstream_scores, field, dict_get.
  destruct (dict_lookup cd (u "scores")); intros H.
  - now rewrite H.
  - now injection H.
Qed.

Lemma default_scores_lookup (k : str) (dflt : value) :
  In (k, dflt) default_scores -> dict_lookup default_scores k = Some dflt.
Proof.
  intros [H|[H|[H|[H|[]]]]]; injection H as <- <-; reflexivity.
Qed.

Lemma normalized_candidate_scores (cd scores sj : dict) (path : list str) :
  value_at (normalized_candidate cd scores sj) (u "scores" :: path)
  = value_at (VDict (dict_update default_scores scores)) path.
Proof. reflexivity. Qed.

(** C2, as stated, fails: a sub-group the candidate supplies in part
    replaces the default sub-group, so its other leaves are missing. *)
Lemma partial_sub_group_loses_leaves :
  exists r nc,
    normalize_result partial_scores = Ok r
    /\ candidates_of r = [nc]
    /\ value_at nc [u "scores"; u "general_qualifications"; u "education"]
       = Some (VInt 5)
    /\ value_at nc [u "scores"; u "general_qualifications"; u "years_of_experience"]
       = None
    /\ forallb (leaf_present nc) score_leaves = false.
Proof. do 2 eexists. repeat (split; [reflexivity|]). reflexivity. Qed.

(** C2, amended. For a decoded mapping input on which [normalize_result]
    returns, the score block of every candidate has the four keys of the
    default block: under each, the candidate's own value when its [scores]
    has that key (a sub-group is taken whole, as supplied), and the default
    otherwise; so every leaf whose sub-group (or, for [total_score], the
    leaf itself) the candidate does not supply is there with value 0.0. *)
Theorem scores_merged_at_top_level (d : dict) (r : value) :
  json_value (VDict d) = true ->
  normalize_result (VDict d) = Ok r ->
  Forall2 (fun c nc =>
             (forall k dflt, In (k, dflt) default_scores ->
                value_at nc [u "scores"; k]
                = Some (dict_get (upstream_scores c) k dflt))
             /\ (forall leaf, In leaf score_leaves ->
                   dict_lookup (upstream_scores c) (hd [] leaf) = None ->
                   value_at nc (u "scores" :: leaf) = Some zero))
          (input_candidates d) (candidates_of r).
Proof.
  intros Hj H. apply normalize_result_candidates in H.
  assert (Forall (fun c => json_value c = true) (input_candidates d)) as Hc.
  { apply json_value_ensure_list, json_value_dict_get; [assumption | reflexivity]. }
  induction H as [|c nc cs ncs (cd & scores & sj & -> & Es & _ & ->) _ IH];
    [constructor|].
  inversion Hc as [|? ? Hjc Hcs]; subst.
  constructor; [|now apply IH].
  assert (NoDup (keys scores)) as Hn.
  { apply json_value_distinct. rewrite <- Es.
    apply json_value_dict_get; [assumption | reflexivity]. }
  rewrite (upstream_scores_dict_get cd scores Es).
  split.
  - intros k dflt Hk.
    rewrite normalized_candidate_scores. simpl.
    rewrite dict_lookup_update by assumption.
    rewrite (default_scores_lookup k dflt Hk). unfold dict_get.
    now destruct (dict_lookup scores k).
  - intros leaf Hleaf Hnone.
    rewrite normalized_candidate_scores.
    repeat (destruct Hleaf as [<-|Hleaf];
            [simpl in Hnone |- *; rewrite dict_lookup_update by assumption;
             rewrite Hnone; reflexivity|]).
    destruct Hleaf.
Qed.

Lemma scores_merged_at_top_level_witness :
  exists r,
    normalize_result partial_scores = Ok r
    /\ Forall2 (fun c nc =>
                  (forall k dflt, In (k, dflt) default_scores ->
                     value_at nc [u "scores"; k]
                     = Some (dict_get (upstream_scores c) k dflt))
                  /\ (forall leaf, In leaf score_leaves ->
                        dict_lookup (upstream_scores c) (hd [] leaf) = None ->
                        value_at nc (u "scores" :: leaf) = Some zero))
               (input_candidates partial_scores_entries) (candidates_of r).
Proof.
  eexists. split; [reflexivity|].
  exact (scores_merged_at_top_level partial_scores_entries _ eq_refl eq_refl).
Defined.

(** ** Normalizing twice *)

Lemma normalize_candidate_record (n r : value) (sc : dict) (ks kw : value)
    (de : list value) :
  normalize_candidate (candidate_record n r sc ks kw de)
  = Ok (candidate_record n r (dict_update default_scores sc) ks kw de).
Proof. reflexivity. Qed.

Lemma normalize_candidate_idem (c nc : value) :
  normalize_candidate c = Ok nc -> normalize_candidate nc = Ok nc.
Proof.
  intros H. apply normalize_candidate_inv in H as (d & scores & sj & _ & _ & _ & ->).
  unfold normalized_candidate. rewrite normalize_candidate_record.
  now rewrite (dict_update_idem _ _ _ default_scores_NoDup).
Qed.

Lemma normalize_matrix_item_idem (item entry : value) :
  normalize_matrix_item item = Ok entry -> normalize_matrix_item entry = Ok entry.
Proof.
  intros H. apply normalize_matrix_item_inv in H as (d & _ & ->). reflexivity.
Qed.

Lemma mapM_fixed {A : Type} (f g : A -> res A) (l l' : list A) :
  (forall a b, f a = Ok b -> g b = Ok b) ->
  mapM f l = Ok l' -> mapM g l' = Ok l'.
Proof.
  intros Hfg H. apply mapM_Forall2 in H.
  induction H as [|a b l l' Hab _ IH]; simpl; [reflexivity|].
  now rewrite (Hfg a b Hab), IH.
Qed.

Lemma normalize_result_record (t : value) (crit ncs nm : list value) (fr : dict) :
  normalize_result (result_record t crit ncs nm (normalized_recommendation fr))
  = (ncs' <- mapM normalize_candidate ncs ;;
     nm' <- mapM normalize_matrix_item nm ;;
     Ok (result_record t crit ncs' nm' (normalized_recommendation fr))).
Proof. reflexivity. Qed.

(** C7. Normalization is idempotent: when [normalize_result] returns a
    result for an input, it returns that same result for the result. *)
Theorem normalize_result_idempotent (x r : value) :
  normalize_result x = Ok r -> normalize_result r = Ok r.
Proof.
  destruct (is_mapping x) eqn:Ex.
  2:{ rewrite (normalize_result_default x Ex). intros [= <-]. reflexivity. }
  destruct x as [| | | | | |d]; try discriminate.
  intros H. apply normalize_result_inv in H as (ncs & nm & fr & Hc & Hm & _ & ->).
  rewrite normalize_result_record.
  rewrite (mapM_fixed _ _ _ _ normalize_candidate_idem Hc).
  rewrite (mapM_fixed _ _ _ _ normalize_matrix_item_idem Hm).
  reflexivity.
Qed.

Lemma normalize_result_idempotent_witness :
  exists r, normalize_result jane = Ok r /\ normalize_result r = Ok r.
Proof.
  eexists. split; [reflexivity|].
  exact (normalize_result_idempotent jane _ eq_refl).
Defined.

(** ** Payload extraction *)

Lemma find_from_found (c : N) (s : str) : forall i,
  find_from c i s = (-1)%Z
  \/ exists n, find_from c i s = (i + Z.of_nat n)%Z /\ nth_error s n = Some c.
Proof.
  induction s as [|x s IH]; intros i; simpl; [now left|].
  destruct (N.eqb_spec x c) as [->|Hne].
  - right. exists 0. split; [lia | reflexivity].
  - destruct (IH (i + 1)%Z) as [H|[n [H Hn]]]; [now left|].
    right. exists (S n). split; [lia | assumption].
Qed.

Lemma rfind_from_found (c : N) (s : str) : forall i last,
  rfind_from c i last s = last
  \/ exists n, rfind_from c i last s = (i + Z.of_nat n)%Z /\ nth_error s n = Some c.
Proof.
  induction s as [|x s IH]; intros i last; simpl; [now left|].
  destruct (IH (i + 1)%Z (if N.eqb x c then i else last)) as [H|[n [H Hn]]].
  - rewrite H. destruct (N.eqb_spec x c) as [->|Hne]; [|now left].
    right. exists 0. split; [lia | reflexivity].
  - right. exists (S n). split; [lia | assumption].
Qed.

(** [brace_pair] says what its name says. *)
Lemma brace_pair_iff (s : str) :
  brace_pair s = true
  <-> exists i j,
        i < j /\ nth_error s i = Some lbrace /\ nth_error s j = Some rbrace.
Proof.
  induction s as [|x s IH]; simpl.
  - split; [discriminate | intros (i & j & _ & H & _); destruct i; discriminate].
  - rewrite orb_true_iff, andb_true_iff, IH, N.eqb_eq, existsb_exists. split.
    + intros [[-> (y & Hy & E)]|(i & j & Hij & Hi & Hj)].
      * apply N.eqb_eq in E; subst y.
        apply In_nth_error in Hy as [n Hn].
        exists 0, (S n). repeat split; [lia | assumption].
      * exists (S i), (S j). repeat split; [lia | assumption | assumption].
    + intros (i & j & Hij & Hi & Hj).
      destruct j as [|j]; [lia|]. simpl in Hj.
      destruct i as [|i]; simpl in Hi.
      * left. split; [congruence|].
        exists rbrace. split; [eapply nth_error_In; eassumption | apply N.eqb_refl].
      * right. exists i, j. repeat split; [lia | assumption | assumption].
Qed.

Lemma extract_payload_cleaned (response_text : str) :
  extract_payload response_text
  = let cleaned_output := cleaned response_text in
    if negb (startswith cleaned_output [lbrace]) then
      let first_brace := find cleaned_output lbrace in
      let last_brace := rfind cleaned_output rbrace in
      if negb (first_brace =? -1)%Z && negb (last_brace =? -1)%Z
         && (last_brace >? first_brace)%Z
      then Ok (slice cleaned_output (Z.to_nat first_brace)
                     (Z.to_nat (last_brace + 1)))
      else Raise (ValueError (u "Invalid JSON format returned by AI."))
    else Ok cleaned_output.
Proof. reflexivity. Qed.

(** C4. When the reply, trimmed and with its code fence removed, neither
    starts with an opening brace nor has an opening brace with a closing
    brace after it, extraction raises, and [post] answers with status 500
    and a body that is the mapping of the one key [error] to the message
    of the exception: the JSON parser and the normalizer are not reached,
    and the answer is not the all-defaults result. *)
Theorem no_payload_is_an_error (json_loads : str -> option value)
    (response_text : str) :
  startswith (cleaned response_text) [lbrace] = false ->
  brace_pair (cleaned response_text) = false ->
  extract_payload response_text
    = Raise (ValueError (u "Invalid JSON format returned by AI."))
  /\ status_of (respond json_loads response_text) = 500
  /\ body_of (respond json_loads response_text)
     = VDict [ (u "error", VStr (u "Invalid JSON format returned by AI.")) ]
  /\ respond json_loads response_text <> JsonResponse (VDict default_result) 200.
Proof.
  intros Hs Hp.
  assert (extract_payload response_text
          = Raise (ValueError (u "Invalid JSON format returned by AI."))) as E.
  { rewrite extract_payload_cleaned. cbv zeta. rewrite Hs. cbn [negb].
    destruct (negb (find (cleaned response_text) lbrace =? -1)%Z
              && negb (rfind (cleaned response_text) rbrace =? -1)%Z
              && (rfind (cleaned response_text) rbrace
                  >? find (cleaned response_text) lbrace)%Z) eqn:C;
      [exfalso | reflexivity].
    apply andb_true_iff in C as [C Hgt].
    apply andb_true_iff in C as [Hf Hl].
    apply negb_true_iff, Z.eqb_neq in Hf, Hl.
    apply Z.gtb_lt in Hgt.
    unfold find in *. unfold rfind in *.
    destruct (find_from_found lbrace (cleaned response_text) 0)
      as [F|[i [F Hi]]]; [contradiction|].
    destruct (rfind_from_found rbrace (cleaned response_text) 0 (-1))
      as [L|[j [L Hj]]]; [contradiction|].
    assert (brace_pair (cleaned response_text) = true) as Hp'.
    { apply brace_pair_iff. exists i, j. repeat split; [lia | assumption | assumption]. }
    congruence. }
  split; [exact E|].
  unfold respond. rewrite E.
  split; [reflexivity|]. split; [reflexivity | discriminate].
Qed.

Lemma no_payload_is_an_error_witness :
  startswith (cleaned (u "I cannot comply.")) [lbrace] = false
  /\ brace_pair (cleaned (u "I cannot comply.")) = false
  /\ extract_payload (u "I cannot comply.")
     = Raise (ValueError (u "Invalid JSON format returned by AI."))
  /\ status_of (respond (fun _ => None) (u "I cannot comply.")) = 500
  /\ body_of (respond (fun _ => None) (u "I cannot comply."))
     = VDict [ (u "error", VStr (u "Invalid JSON format returned by AI.")) ]
  /\ respond (fun _ => None) (u "I cannot comply.")
     <> JsonResponse (VDict default_result) 200.
Proof.
  split; [reflexivity|]. split; [reflexivity|].
  exact (no_payload_is_an_error (fun _ => None) (u "I cannot comply.")
           eq_refl eq_refl).
Defined.

Example fenced_payload_extracted :
  extract_payload
    (u "```json" ++ [newline] ++ u "{" ++ [dquote] ++ u "tor_text" ++ [dquote]
       ++ u ":" ++ [dquote] ++ u "x" ++ [dquote] ++ u "}" ++ [newline] ++ u "```")
  = Ok (u "{" ++ [dquote] ++ u "tor_text" ++ [dquote]
          ++ u ":" ++ [dquote] ++ u "x" ++ [dquote] ++ u "}").
Proof. reflexivity. Qed.

(** ** Replacing in a text *)

Lemma replace_nonempty (s : str) (y : N) (old new : str) :
  replace s (y :: old) new = replace_from (y :: old) new 0 s.
Proof. reflexivity. Qed.

Lemma startswith_app_self (old rest : str) : startswith (old ++ rest) old = true.
Proof.
  induction old as [|y old IH]; simpl; [reflexivity|].
  now rewrite N.eqb_refl, IH.
Qed.

Lemma replace_from_skip (old new a rest : str) :
  replace_from old new (length a) (a ++ rest) = replace_from old new 0 rest.
Proof.
  induction a as [|x a IH]; simpl; [|assumption].
  destruct rest; reflexivity.
Qed.

(** At an occurrence, the replacement is written and the scan goes on
    after the occurrence. *)
Lemma replace_from_occurrence (y : N) (old new rest : str) :
  replace_from (y :: old) new 0 ((y :: old) ++ rest)
  = new ++ replace_from (y :: old) new 0 rest.
Proof.
  change ((y :: old) ++ rest) with (y :: old ++ rest).
  cbn [replace_from].
  change (y :: old ++ rest) with ((y :: old) ++ rest).
  rewrite startswith_app_self.
  cbn [length Nat.sub]. rewrite Nat.sub_0_r.
  now rewrite replace_from_skip.
Qed.

(** Characters other than the first of [old] are copied. *)
Lemma replace_from_other_chars (y : N) (old new a rest : str) :
  forallb (fun c => negb (N.eqb c y)) a = true ->
  replace_from (y :: old) new 0 (a ++ rest)
  = a ++ replace_from (y :: old) new 0 rest.
Proof.
  induction a as [|x a IH]; [reflexivity|].
  cbn [forallb]. rewrite andb_true_iff, negb_true_iff. intros [Hx Ha].
  change ((x :: a) ++ rest) with (x :: a ++ rest).
  cbn [replace_from startswith]. rewrite Hx. cbn [andb].
  now rewrite IH.
Qed.

Lemma startswith_barrier (c : N) (t old : str) : forall s,
  ~ In c old -> startswith (s ++ c :: t) old = startswith s old.
Proof.
  induction old as [|y old IH]; intros s Hc; [reflexivity|].
  destruct s as [|x s]; simpl.
  - destruct (N.eqb_spec c y) as [->|Hne]; [|reflexivity].
    exfalso. apply Hc. now left.
  - rewrite IH; [reflexivity|]. intros Hin. apply Hc. now right.
Qed.

(** A text in which [old] does not occur, closed by a character that is
    not in [old], is copied. *)
Lemma replace_from_absent (old new a : str) (c : N) (rest : str) :
  contains a old = false ->
  ~ In c old ->
  replace_from old new 0 (a ++ c :: rest)
  = a ++ replace_from old new 0 (c :: rest).
Proof.
  intros Ha Hc. induction a as [|x a IH]; [reflexivity|].
  cbn [contains] in Ha. apply orb_false_iff in Ha as [Hx Ha].
  change ((x :: a) ++ c :: rest) with (x :: a ++ c :: rest).
  cbn [replace_from].
  change (x :: a ++ c :: rest) with ((x :: a) ++ c :: rest).
  rewrite (startswith_barrier c rest old (x :: a) Hc), Hx.
  cbn [app]. now rewrite IH.
Qed.

(** ** The prompt *)

Lemma template_split :
  template
  = (instruction ++ u "tor_text: ") ++ tor_placeholder
      ++ newline :: u "cvs: " ++ cvs_placeholder ++ [newline].
Proof. vm_compute. reflexivity. Qed.

Lemma instruction_has_no_placeholder_start :
  forallb (fun c => negb (N.eqb c 60)) (instruction ++ u "tor_text: ") = true.
Proof. vm_compute. reflexivity. Qed.

(** When the escaped reference text does not itself contain the second
    placeholder, the prompt is the template with its two placeholders
    replaced and nothing else changed, whatever the documents contain. *)
Lemma craft_prompt_substitutes (tor : str) (cv_contents : list cv) :
  contains (esc tor) cvs_placeholder = false ->
  craft_prompt tor cv_contents = substituted tor cv_contents.
Proof.
  intros Htor. unfold craft_prompt, substituted.
  rewrite template_split.
  assert (HP := instruction_has_no_placeholder_start).
  rewrite (app_assoc instruction).
  generalize dependent (instruction ++ u "tor_text: "). intros P HP.
  generalize (cvs_text cv_contents). intros docs.
  change tor_placeholder with (60%N :: u "<TOR_TEXT>>") at 2.
  rewrite replace_nonempty.
  rewrite (replace_from_other_chars _ _ _ P _ HP).
  change tor_placeholder with (60%N :: u "<TOR_TEXT>>").
  rewrite replace_from_occurrence.
  change (replace_from (60%N :: u "<TOR_TEXT>>") (esc tor) 0
            (newline :: u "cvs: " ++ cvs_placeholder ++ [newline]))
    with (newline :: u "cvs: " ++ cvs_placeholder ++ [newline]).
  change cvs_placeholder with (60%N :: u "<CVS_TEXT>>") at 2.
  rewrite replace_nonempty.
  rewrite (replace_from_other_chars _ _ _ P _ HP).
  rewrite (replace_from_absent _ _ (esc tor) newline _ Htor).
  2:{ vm_compute. intuition discriminate. }
  reflexivity.
Qed.

Example craft_prompt_substitutes_example :
  craft_prompt (u "Senior engineer, <<TOR_TEXT>> \ 5 years") one_cv
  = substituted (u "Senior engineer, <<TOR_TEXT>> \ 5 years") one_cv.
Proof. apply craft_prompt_substitutes. reflexivity. Qed.

(** C6 on a reference text that is the second placeholder: the document
    list is written twice, once in the place of the reference text, so the
    prompt is not the template with its two placeholders replaced. *)
Theorem craft_prompt_rescans_reference_text :
  craft_prompt cvs_placeholder one_cv
  = instruction ++ u "tor_text: " ++ cvs_text one_cv ++ [newline]
      ++ u "cvs: " ++ cvs_text one_cv ++ [newline]
  /\ craft_prompt cvs_placeholder one_cv <> substituted cvs_placeholder one_cv.
Proof.
  assert (craft_prompt cvs_placeholder one_cv
          = instruction ++ u "tor_text: " ++ cvs_text one_cv ++ [newline]
              ++ u "cvs: " ++ cvs_text one_cv ++ [newline]) as E
    by (vm_compute; reflexivity).
  split; [exact E|].
  rewrite E. unfold substituted. intros H.
  apply app_inv_head in H.
  apply (f_equal (@length N)) in H. vm_compute in H. discriminate H.
Qed.

(** ** The normalizer and the objects it is given *)

Section Frame.

Variable b : nat.

Lemma unchanged_refl (h : Heap.heap) : unchanged b h h.
Proof. split; [reflexivity | lia]. Qed.

Lemma unchanged_trans (h1 h2 h3 : Heap.heap) :
  unchanged b h1 h2 -> unchanged b h2 h3 -> unchanged b h1 h3.
Proof. intros [E1 L1] [E2 L2]. split; [congruence | lia]. Qed.

Lemma frame_ret {A : Type} (a : A) (Q : A -> Prop) :
  Q a -> frame b (Heap.ret a) Q.
Proof. intros Ha h _. split; [apply unchanged_refl | assumption]. Qed.

Lemma frame_raise {A : Type} (e : exn) (Q : A -> Prop) :
  frame b (Heap.raise e) Q.
Proof. intros h _. apply unchanged_refl. Qed.

Lemma frame_stuck {A : Type} (Q : A -> Prop) : frame b Heap.stuck Q.
Proof. intros h _. exact I. Qed.

Lemma frame_bind {A B : Type} (m : Heap.M A) (k : A -> Heap.M B)
    (Q : A -> Prop) (R : B -> Prop) :
  frame b m Q -> (forall a, Q a -> frame b (k a) R) ->
  frame b (Heap.bind m k) R.
Proof.
  intros Hm Hk h Hb. unfold Heap.bind.
  specialize (Hm h Hb).
  destruct (m h) as [a h1|e h1|]; [|assumption|exact I].
  destruct Hm as [Hu Ha].
  assert (b <= length h1) as Hb1 by (destruct Hu; lia).
  specialize (Hk a Ha h1 Hb1).
  destruct (k a h1) as [c h2|e h2|]; [|eapply unchanged_trans; eassumption|exact I].
  destruct Hk as [Hu2 Hc].
  split; [eapply unchanged_trans; eassumption | assumption].
Qed.

Lemma frame_weaken {A : Type} (m : Heap.M A) (Q Q' : A -> Prop) :
  frame b m Q -> (forall a, Q a -> Q' a) -> frame b m Q'.
Proof.
  intros Hm HQ h Hb. specialize (Hm h Hb).
  destruct (m h); [|assumption|exact I].
  destruct Hm. split; auto.
Qed.

Lemma frame_alloc (o : Heap.obj) :
  frame b (Heap.alloc o) (fun a => b <= a).
Proof.
  intros h Hb. unfold Heap.alloc. split; [|assumption].
  split.
  - rewrite firstn_app.
    replace (b - length h) with 0 by lia. simpl. apply app_nil_r.
  - rewrite length_app. lia.
Qed.

Lemma frame_load (a : Heap.addr) : frame b (Heap.load a) (fun _ => True).
Proof.
  intros h _. unfold Heap.load.
  destruct (nth_error h a); [|exact I].
  split; [apply unchanged_refl | exact I].
Qed.

Lemma set_nth_length (h : Heap.heap) : forall a o,
  length (Heap.set_nth h a o) = length h.
Proof.
  induction h as [|x h IH]; intros [|a] o; simpl; auto.
Qed.

Lemma set_nth_firstn (h : Heap.heap) : forall n a o,
  n <= a -> firstn n (Heap.set_nth h a o) = firstn n h.
Proof.
  induction h as [|x h IH]; intros n a o Hn; [reflexivity|].
  destruct n as [|n]; [reflexivity|].
  destruct a as [|a]; [lia|]. simpl.
  rewrite IH by lia. reflexivity.
Qed.

(** Writing to an object made since the heap had [b] objects. *)
Lemma frame_store (a : Heap.addr) (o : Heap.obj) :
  b <= a -> frame b (Heap.store a o) (fun _ => True).
Proof.
  intros Ha h _. unfold Heap.store.
  destruct (nth_error h a); [|exact I].
  split; [|exact I].
  split; [now apply set_nth_firstn | rewrite set_nth_length; lia].
Qed.

Lemma frame_dict_lit (entries : list (str * Heap.ref)) :
  frame b (Heap.dict_lit entries) (fresh b).
Proof.
  eapply frame_bind; [apply frame_alloc|].
  intros a Ha. apply frame_ret. now exists a.
Qed.

Lemma frame_list_lit (items : list Heap.ref) :
  frame b (Heap.list_lit items) (fresh b).
Proof.
  eapply frame_bind; [apply frame_alloc|].
  intros a Ha. apply frame_ret. now exists a.
Qed.

(** Reading the heap leaves it as it is. *)
Ltac reads r :=
  destruct r; try apply frame_raise; try apply frame_stuck;
  try (apply frame_ret; exact I);
  (eapply frame_bind; [apply frame_load|]);
  intros [?|?] _;
  try apply frame_raise; try apply frame_stuck; apply frame_ret; exact I.

Lemma frame_is_dict (r : Heap.ref) :
  frame b (Heap.is_dict r) (fun _ => True).
Proof. unfold Heap.is_dict. reads r. Qed.

Lemma frame_get (r : Heap.ref) (k : str) (dflt : Heap.ref) :
  frame b (Heap.get r k dflt) (fun _ => True).
Proof. unfold Heap.get. reads r. Qed.

Lemma frame_entries_of (r : Heap.ref) :
  frame b (Heap.entries_of r) (fun _ => True).
Proof. unfold Heap.entries_of. reads r. Qed.

Lemma frame_unpack (r : Heap.ref) :
  frame b (Heap.unpack r) (fun _ => True).
Proof. unfold Heap.unpack. reads r. Qed.

Lemma frame_items_of (r : Heap.ref) :
  frame b (Heap.items_of r) (fun _ => True).
Proof. unfold Heap.items_of. reads r. Qed.

Lemma frame_item (d : Heap.ref) (k : str) :
  frame b (Heap.item d k) (fun _ => True).
Proof.
  eapply frame_bind; [apply frame_entries_of|].
  intros e _. destruct (dict_lookup e k);
    [apply frame_ret; exact I | apply frame_raise].
Qed.

Lemma frame_copy (d : Heap.ref) : frame b (Heap.copy d) (fresh b).
Proof.
  eapply frame_bind; [apply frame_entries_of|].
  intros e _. apply frame_dict_lit.
Qed.

Lemma frame_merge (d other : Heap.ref) :
  frame b (Heap.merge d other) (fresh b).
Proof.
  eapply frame_bind; [apply frame_entries_of|]. intros e _.
  eapply frame_bind; [apply frame_unpack|]. intros e' _.
  apply frame_dict_lit.
Qed.

Lemma frame_ensure_list (value : Heap.ref) :
  frame b (Heap._ensure_list value) (fun _ => True).
Proof.
  assert (forall items, frame b (Heap.list_lit items) (fun _ => True)) as L
    by (intros; eapply frame_weaken; [apply frame_list_lit | auto]).
  destruct value; simpl; try apply L.
  eapply frame_bind; [apply frame_load|].
  intros [?|?] _; [apply frame_ret; exact I | apply L].
Qed.

(** [update] and [append] write to their first argument only. *)
Lemma frame_update (d other : Heap.ref) :
  fresh b d -> frame b (Heap.update d other) (fun _ => True).
Proof.
  intros (a & -> & Ha). unfold Heap.update.
  eapply frame_bind; [apply frame_entries_of|]. intros e _.
  eapply frame_bind; [apply frame_entries_of|]. intros e' _.
  now apply frame_store.
Qed.

Lemma frame_append (l x : Heap.ref) :
  fresh b l -> frame b (Heap.append l x) (fun _ => True).
Proof.
  intros (a & -> & Ha). unfold Heap.append.
  eapply frame_bind; [apply frame_items_of|]. intros items _.
  now apply frame_store.
Qed.

Lemma frame_for_each (body : Heap.ref -> Heap.M unit) (items : list Heap.ref) :
  (forall x, frame b (body x) (fun _ => True)) ->
  frame b (Heap.for_each body items) (fun _ => True).
Proof.
  intros Hbody. induction items as [|x items IH]; simpl.
  - apply frame_ret. exact I.
  - eapply frame_bind; [apply Hbody|]. intros _ _. exact IH.
Qed.

Create HintDb frame.

Hint Resolve frame_dict_lit frame_list_lit frame_get frame_is_dict
  frame_items_of frame_item frame_copy frame_merge frame_ensure_list
  frame_update frame_append : frame.

(** One statement: its effect by a lemma above, then the rest. *)
Ltac step :=
  eapply frame_bind; [solve [eauto with frame] | cbv beta; intros ? ?].

Lemma frame_default_scores : frame b Heap.default_scores (fresh b).
Proof. unfold Heap.default_scores. do 3 step. apply frame_dict_lit. Qed.

Lemma frame_default_candidate (default_scores : Heap.ref) :
  frame b (Heap.default_candidate default_scores) (fresh b).
Proof. unfold Heap.default_candidate. do 2 step. apply frame_dict_lit. Qed.

Lemma frame_default_result : frame b Heap.default_result (fresh b).
Proof.
  unfold Heap.default_result, Heap.criterion. do 12 step.
  apply frame_dict_lit.
Qed.

Lemma frame_normalize_candidate (ds dc ncs c : Heap.ref) :
  fresh b ncs ->
  frame b (Heap.normalize_candidate ds dc ncs c) (fun _ => True).
Proof.
  intros Hncs. unfold Heap.normalize_candidate.
  do 18 step. auto with frame.
Qed.

Lemma frame_normalize_matrix_item (nm item : Heap.ref) :
  fresh b nm ->
  frame b (Heap.normalize_matrix_item nm item) (fun _ => True).
Proof.
  intros Hnm. unfold Heap.normalize_matrix_item.
  do 4 step. auto with frame.
Qed.

Lemma frame_normalize_result (result : Heap.ref) :
  frame b (Heap.normalize_result result) (fresh b).
Proof.
  unfold Heap.normalize_result.
  eapply frame_bind; [apply frame_default_scores|]. intros ds _.
  eapply frame_bind; [apply frame_default_candidate|]. intros dc _.
  eapply frame_bind; [apply frame_default_result|]. intros dr Hdr.
  step.
  destruct a; simpl; [|now apply frame_ret].
  do 5 step.
  eapply frame_bind;
    [apply frame_for_each; intros; now apply frame_normalize_candidate|].
  intros _ _.
  do 5 step.
  eapply frame_bind;
    [apply frame_for_each; intros; now apply frame_normalize_matrix_item|].
  intros _ _.
  do 10 step.
  apply frame_dict_lit.
Qed.

End Frame.

Lemma unchanged_lookup (h h' : Heap.heap) (a : Heap.addr) (o : Heap.obj) :
  unchanged (length h) h h' -> nth_error h a = Some o -> nth_error h' a = Some o.
Proof.
  intros [E _] Ha. rewrite firstn_all in E.
  assert (a < length h) as Hlt by (apply nth_error_Some; congruence).
  rewrite <- E, nth_error_firstn in Ha.
  apply Nat.ltb_lt in Hlt. now rewrite Hlt in Ha.
Qed.

(** C9. When [normalize_result] returns, every object that was in the
    heap before the call, the input and all it reaches among them, is
    what it was, and the result is an object made during the call: its
    address held nothing before. *)
Theorem normalize_result_leaves_input (result r : Heap.ref) (h h' : Heap.heap) :
  Heap.normalize_result result h = Heap.Ret r h' ->
  (forall a o, nth_error h a = Some o -> nth_error h' a = Some o)
  /\ exists a, r = Heap.RObj a /\ nth_error h a = None.
Proof.
  intros H.
  assert (Hf := frame_normalize_result (length h) result h (le_n _)).
  rewrite H in Hf. destruct Hf as [Hu (a & -> & Ha)].
  split.
  - intros a' o. now apply unchanged_lookup.
  - exists a. split; [reflexivity | now apply nth_error_None].
Qed.

Lemma normalize_result_leaves_input_witness :
  Heap.normalize_result (Heap.RObj 0) sample_heap
    = Heap.Ret sample_result sample_heap_after
  /\ (forall a o, nth_error sample_heap a = Some o ->
                  nth_error sample_heap_after a = Some o)
  /\ exists a, sample_result = Heap.RObj a /\ nth_error sample_heap a = None.
Proof.
  split; [reflexivity|].
  exact (normalize_result_leaves_input (Heap.RObj 0) sample_result
           sample_heap sample_heap_after eq_refl).
Defined.

(** The same when it raises. *)
Lemma normalize_result_raising_leaves_input (result : Heap.ref) (e : exn)
    (h h' : Heap.heap) :
  Heap.normalize_result result h = Heap.Exc e h' ->
  forall a o, nth_error h a = Some o -> nth_error h' a = Some o.
Proof.
  intros H.
  assert (Hf := frame_normalize_result (length h) result h (le_n _)).
  rewrite H in Hf. intros a o. now apply unchanged_lookup.
Qed.

(** On these heaps the normalizer on the heap and the normalizer on
    documents end the same way. *)
Example heap_and_document_agree :
  (exists x,
     Heap.read 8 sample_heap (Heap.RObj 0) = Some x
     /\ Heap.observe 8 (Heap.normalize_result (Heap.RObj 0) sample_heap)
        = Some (normalize_result x))
  /\ (exists x,
        Heap.read 8 malformed_heap (Heap.RObj 0) = Some x
        /\ Heap.observe 8 (Heap.normalize_result (Heap.RObj 0) malformed_heap)
           = Some (normalize_result x))
  /\ Heap.observe 8 (Heap.normalize_result (Heap.RInt 3) [])
     = Some (normalize_result (VInt 3)).
Proof.
  split; [|split].
  - eexists. split; vm_compute; reflexivity.
  - eexists. split; vm_compute; reflexivity.
  - vm_compute. reflexivity.
Qed.

(** * Further properties of the normalizer *)

Lemma mapM_Raise_inv {A B : Type} (f : A -> res B) (l : list A) (e : exn) :
  mapM f l = Raise e -> exists a, In a l /\ f a = Raise e.
Proof.
  induction l as [|a l IH]; simpl; [discriminate|].
  destruct (f a) as [b|e'] eqn:Ea; simpl.
  - destruct (mapM f l) as [bs|e'']; simpl; [discriminate|].
    intros [= ->]. destruct (IH eq_refl) as (x & Hx & Hfx).
    exists x. split; [now right | assumption].
  - intros [= ->]. exists a. split; [now left | assumption].
Qed.

Lemma field_or_dict_get (d : dict) (k : str) (dflt : value) :
  field_or (VDict d) k dflt = dict_get d k dflt.
Proof. reflexivity. Qed.

(** X1. For a mapping input on which [normalize_result] returns, the
    comparison matrix of the result has one entry per entry of the
    input's, in the same order, and each is a mapping of exactly the keys
    [candidate_name], [total_score] and [rank], in this order, holding the
    input entry's value under that key, or "Unnamed Candidate", 0.0 and 0
    where the input entry has none; any other key of the input entry is
    gone. *)
Theorem comparison_matrix_projected (d : dict) (r : value) :
  normalize_result (VDict d) = Ok r ->
  exists nm,
    field r (u "comparison_matrix") = Some (VList nm)
    /\ Forall2 (fun item entry =>
                  is_mapping item = true
                  /\ entry
                     = VDict
                         [ (u "candidate_name",
                            field_or item (u "candidate_name")
                              (VStr (u "Unnamed Candidate")));
                           (u "total_score", field_or item (u "total_score") zero);
                           (u "rank", field_or item (u "rank") (VInt 0)) ])
               (input_matrix d) nm.
Proof.
  intros H. apply normalize_result_inv in H as (ncs & nm & fr & _ & Hm & _ & ->).
  exists nm. split; [reflexivity|].
  apply mapM_Forall2 in Hm.
  eapply Forall2_impl; [|exact Hm].
  intros item entry Hi.
  apply normalize_matrix_item_inv in Hi as (id & -> & ->).
  split; reflexivity.
Qed.

Lemma comparison_matrix_projected_witness :
  exists r nm,
    normalize_result jane = Ok r
    /\ field r (u "comparison_matrix") = Some (VList nm)
    /\ map keys_of nm = [ [u "candidate_name"; u "total_score"; u "rank"] ].
Proof.
  destruct (comparison_matrix_projected jane_entries _ eq_refl)
    as (nm & Hnm & _).
  do 2 eexists. split; [reflexivity|]. split; [exact Hnm|].
  injection Hnm as <-. reflexivity.
Defined.





(** X4. When [normalize_result] raises, the exception is an
    [AttributeError] or a [TypeError]: it never raises [KeyError] (the
    subscript [default_result["criteria"]] always finds its key) nor
    [ValueError]. *)
Theorem normalize_result_raises_only (x : value) (e : exn) :
  normalize_result x = Raise e ->
  (exists ty, e = AttributeError ty) \/ (exists ty, e = TypeError ty).
Proof.
  destruct (is_mapping x) eqn:Ex.
  2:{ now rewrite (normalize_result_default x Ex). }
  destruct x as [| | | | | |d]; try discriminate. clear Ex.
  rewrite normalize_result_dict.
  destruct (mapM normalize_candidate (input_candidates d)) as [ncs|e1] eqn:E1.
  2:{ intros [= <-]. apply mapM_Raise_inv in E1 as (c & _ & Hc).
      destruct c as [| | | | | |cd]; try (injection Hc as <-; left; eexists; reflexivity).
      rewrite normalize_candidate_dict in Hc.
      destruct (dict_get cd (u "scores") (VDict []));
        try (injection Hc as <-; right; eexists; reflexivity).
      destruct (dict_get cd (u "summary_justification") (VDict []));
        try (injection Hc as <-; left; eexists; reflexivity).
      all: try discriminate Hc. }
  unfold bind at 1.
  destruct (mapM normalize_matrix_item _) as [nm|e2] eqn:E2.
  2:{ intros [= <-]. apply mapM_Raise_inv in E2 as (c & _ & Hc).
      destruct c; try (injection Hc as <-; left; eexists; reflexivity).
      all: try discriminate Hc. }
  unfold bind at 1.
  destruct (dict_get d (u "final_recommendation") (VDict []));
    try (intros [= <-]; left; eexists; reflexivity).
  all: try discriminate.
Qed.

Lemma normalize_result_raises_only_witness :
  normalize_result
    (VDict [ (u "candidates", VList [ VDict [ (u "scores", VInt 3) ] ]) ])
  = Raise (TypeError (u "int"))
  /\ ((exists ty, TypeError (u "int") = AttributeError ty)
      \/ (exists ty, TypeError (u "int") = TypeError ty)).
Proof.
  split; [reflexivity|].
  exact (normalize_result_raises_only
           (VDict [ (u "candidates", VList [ VDict [ (u "scores", VInt 3) ] ]) ])
           (TypeError (u "int")) eq_refl).
Defined.

(** X5. [normalize_result] looks at a mapping input only under the keys
    [tor_text], [criteria], [candidates], [comparison_matrix] and
    [final_recommendation]: two mappings that agree under these five keys
    are normalized alike, whatever else they hold. *)
Theorem unknown_keys_discarded (d d' : dict) :
  (forall k, In k result_fields -> dict_lookup d k = dict_lookup d' k) ->
  normalize_result (VDict d) = normalize_result (VDict d').
Proof.
  intros H.
  assert (forall k dflt, In k result_fields -> dict_get d k dflt = dict_get d' k dflt)
    as G by (intros k dflt Hk; unfold dict_get; now rewrite (H k Hk)).
  rewrite !normalize_result_dict. unfold input_candidates.
  rewrite (G (u "candidates")), (G (u "comparison_matrix")),
    (G (u "final_recommendation")), (G (u "tor_text")), (G (u "criteria"));
    try reflexivity; simpl; tauto.
Qed.

Lemma unknown_keys_discarded_witness :
  normalize_result (VDict [ (u "tor_text", VStr (u "x")) ])
  = normalize_result
      (VDict [ (u "model", VStr (u "gemini")); (u "tor_text", VStr (u "x"));
               (u "usage", VDict [ (u "tokens", VInt 12) ]) ]).
Proof.
  apply (unknown_keys_discarded
           [ (u "tor_text", VStr (u "x")) ]
           [ (u "model", VStr (u "gemini")); (u "tor_text", VStr (u "x"));
             (u "usage", VDict [ (u "tokens", VInt 12) ]) ]).
  intros k [<-|[<-|[<-|[<-|[<-|[]]]]]]; reflexivity.
Defined.

(** * Further properties of payload extraction *)

Lemma lstrip_split (s : str) :
  exists ws, s = ws ++ lstrip s /\ forallb isspace ws = true.
Proof.
  induction s as [|c s (ws & E & Hws)]; [now exists []|].
  cbn [lstrip]. destruct (isspace c) eqn:Hc.
  - exists (c :: ws). split; [cbn [app]; now rewrite <- E | cbn [forallb]; now rewrite Hc].
  - now exists [].
Qed.

Lemma lstrip_head (s : str) :
  match lstrip s with
  | [] => True
  | c :: _ => isspace c = false
  end.
Proof.
  induction s as [|c s IH]; [exact I|].
  cbn [lstrip]. destruct (isspace c) eqn:Hc; assumption.
Qed.

Lemma lstrip_spaces (ws s : str) :
  forallb isspace ws = true -> lstrip (ws ++ s) = lstrip s.
Proof.
  induction ws as [|c ws IH]; [reflexivity|].
  cbn [forallb app lstrip]. rewrite andb_true_iff. intros [-> H]. auto.
Qed.

Lemma lstrip_nonspace (c : N) (s : str) :
  isspace c = false -> lstrip (c :: s) = c :: s.
Proof. intros H. cbn [lstrip]. now rewrite H. Qed.

Lemma forallb_rev {A : Type} (f : A -> bool) (l : list A) :
  forallb f (rev l) = forallb f l.
Proof.
  induction l as [|x l IH]; [reflexivity|].
  simpl. rewrite forallb_app, IH. simpl. rewrite andb_true_r. apply andb_comm.
Qed.

Lemma rev_last (s : str) :
  s <> [] -> rev s = last s 0%N :: rev (removelast s).
Proof.
  intros H. rewrite (app_removelast_last 0%N H) at 1.
  now rewrite rev_app_distr.
Qed.

Lemma rstrip_spaces (s ws : str) :
  forallb isspace ws = true -> rstrip (s ++ ws) = rstrip s.
Proof.
  intros H. unfold rstrip. rewrite rev_app_distr, lstrip_spaces; [reflexivity|].
  now rewrite forallb_rev.
Qed.

Lemma rstrip_nonspace (s : str) :
  s <> [] -> isspace (last s 0%N) = false -> rstrip s = s.
Proof.
  intros Hs Hl. unfold rstrip.
  rewrite (rev_last s Hs), (lstrip_nonspace _ _ Hl), <- (rev_last s Hs).
  apply rev_involutive.
Qed.

(** Trimming takes white space away from around a trimmed text. *)
Lemma strip_pad (w1 s w2 : str) :
  forallb isspace w1 = true -> forallb isspace w2 = true ->
  trimmed s = true ->
  strip (w1 ++ s ++ w2) = s.
Proof.
  intros H1 H2 Hs. unfold strip. rewrite (lstrip_spaces w1 _ H1).
  destruct s as [|c s].
  - cbn [app]. rewrite <- (app_nil_r w2), (lstrip_spaces w2 [] H2). reflexivity.
  - cbn [trimmed] in Hs. apply andb_true_iff in Hs as [Hc Hl].
    apply negb_true_iff in Hc, Hl.
    change ((c :: s) ++ w2) with (c :: s ++ w2).
    rewrite (lstrip_nonspace c _ Hc).
    change (c :: s ++ w2) with ((c :: s) ++ w2).
    rewrite (rstrip_spaces _ w2 H2).
    apply rstrip_nonspace; [discriminate | assumption].
Qed.

Lemma strip_trimmed (s : str) : trimmed (strip s) = true.
Proof.
  unfold strip, rstrip.
  assert (Hh := lstrip_head s).
  destruct (lstrip_split (rev (lstrip s))) as (ws & E & Hws).
  assert (Hq := lstrip_head (rev (lstrip s))).
  destruct (lstrip (rev (lstrip s))) as [|x q] eqn:Eq; [reflexivity|].
  apply (f_equal (@rev N)) in E.
  rewrite rev_involutive, rev_app_distr in E.
  cbn [rev] in *.
  destruct (rev q ++ [x]) as [|y t] eqn:Et.
  - destruct (rev q); discriminate Et.
  - cbn [trimmed]. rewrite <- Et, last_last, Hq.
    rewrite E in Hh. cbn [app] in Hh. now rewrite Hh.
Qed.

(** X6. Trimming a trimmed text changes nothing: the second [strip] of
    [post], applied to [response.text.strip()], is the identity, and so
    is any further one. *)
Theorem strip_idempotent (s : str) : strip (strip s) = strip s.
Proof.
  rewrite <- (app_nil_r (strip s)) at 1.
  apply (strip_pad [] (strip s) []); try reflexivity.
  apply strip_trimmed.
Qed.

(** Where the needle is first and last. *)
Lemma find_from_first (c : N) (s : str) : forall i,
  (find_from c i s = (-1)%Z /\ ~ In c s)
  \/ exists n,
       find_from c i s = (i + Z.of_nat n)%Z
       /\ nth_error s n = Some c /\ ~ In c (firstn n s).
Proof.
  induction s as [|x s IH]; intros i; simpl; [left; tauto|].
  destruct (N.eqb_spec x c) as [->|Hne].
  - right. exists 0. repeat split; [lia | simpl; tauto].
  - destruct (IH (i + 1)%Z) as [[H Hn]|(n & H & Hn & Hf)].
    + left. split; [assumption | intros [E|Hin]; auto].
    + right. exists (S n). repeat split; [lia | assumption |].
      simpl. intros [E|Hin]; auto.
Qed.

Lemma rfind_from_last (c : N) (s : str) : forall i last,
  (rfind_from c i last s = last /\ ~ In c s)
  \/ exists n,
       rfind_from c i last s = (i + Z.of_nat n)%Z
       /\ nth_error s n = Some c /\ ~ In c (skipn (S n) s).
Proof.
  induction s as [|x s IH]; intros i last; simpl; [left; tauto|].
  destruct (IH (i + 1)%Z (if N.eqb x c then i else last))
    as [[H Hn]|(n & H & Hn & Hl)].
  - rewrite H. destruct (N.eqb_spec x c) as [->|Hne].
    + right. exists 0. repeat split; [lia | assumption].
    + left. split; [reflexivity | intros [E|Hin]; auto].
  - right. exists (S n). repeat split; [lia | assumption | assumption].
Qed.

Lemma firstn_S_nth (s : str) : forall k x,
  nth_error s k = Some x -> firstn (S k) s = firstn k s ++ [x].
Proof.
  induction s as [|y s IH]; intros [|k] x H; try discriminate.
  - injection H as ->. reflexivity.
  - simpl in H. cbn [firstn app]. f_equal. exact (IH k x H).
Qed.

(** The span the fallback cuts out. *)
Lemma slice_span (c : str) (n m : nat) :
  n < m ->
  nth_error c n = Some lbrace -> nth_error c m = Some rbrace ->
  exists body,
    slice c n (S m) = lbrace :: body ++ [rbrace]
    /\ c = firstn n c ++ slice c n (S m) ++ skipn (S m) c.
Proof.
  intros Hnm Hn Hm. unfold slice.
  assert (nth_error (skipn n c) (m - n) = Some rbrace) as Hm'.
  { rewrite nth_error_skipn. replace (n + (m - n)) with m by lia. assumption. }
  assert (nth_error (skipn n c) 0 = Some lbrace) as Hn'.
  { rewrite nth_error_skipn. now rewrite Nat.add_0_r. }
  replace (S m - n) with (S (m - n)) by lia.
  rewrite (firstn_S_nth _ _ _ Hm').
  destruct (skipn n c) as [|x rest] eqn:Es; [discriminate|].
  injection Hn' as ->.
  destruct (m - n) as [|k] eqn:Ek; [lia|].
  exists (firstn k rest). split; [reflexivity|].
  rewrite <- (firstn_skipn n c) at 1. f_equal.
  rewrite Es.
  rewrite <- (firstn_S_nth _ _ _ Hm').
  assert (skipn (S m) c = skipn (S (S k)) (lbrace :: rest)) as ->.
  { rewrite <- Es, skipn_skipn. f_equal. lia. }
  symmetry. apply firstn_skipn.
Qed.

Lemma extract_payload_fallback (response_text p : str) :
  extract_payload response_text = Ok p ->
  startswith (cleaned response_text) [lbrace] = false ->
  exists n m,
    n < m
    /\ nth_error (cleaned response_text) n = Some lbrace
    /\ ~ In lbrace (firstn n (cleaned response_text))
    /\ nth_error (cleaned response_text) m = Some rbrace
    /\ ~ In rbrace (skipn (S m) (cleaned response_text))
    /\ p = slice (cleaned response_text) n (S m).
Proof.
  rewrite extract_payload_cleaned. cbv zeta. intros H Hs.
  rewrite Hs in H. cbn [negb] in H.
  destruct (negb (find (cleaned response_text) lbrace =? -1)%Z
            && negb (rfind (cleaned response_text) rbrace =? -1)%Z
            && (rfind (cleaned response_text) rbrace
                >? find (cleaned response_text) lbrace)%Z) eqn:C;
    [|discriminate].
  injection H as <-.
  apply andb_true_iff in C as [C Hgt].
  apply andb_true_iff in C as [Hf Hl].
  apply negb_true_iff, Z.eqb_neq in Hf, Hl.
  apply Z.gtb_lt in Hgt.
  unfold find, rfind in *.
  destruct (find_from_first lbrace (cleaned response_text) 0)
    as [[F _]|(n & F & Hn & Hpre)]; [contradiction|].
  destruct (rfind_from_last rbrace (cleaned response_text) 0 (-1))
    as [[L _]|(m & L & Hm & Hpost)]; [contradiction|].
  exists n, m. rewrite F, L in *.
  repeat split; try assumption; [lia|].
  f_equal; [lia|].
  replace (0 + Z.of_nat m + 1)%Z with (Z.of_nat (S m)) by lia.
  now rewrite Nat2Z.id.
Qed.

(** X7. Whatever [extract_payload] hands on to the JSON parser starts with
    an opening brace. *)
Theorem extract_payload_starts_with_brace (response_text p : str) :
  extract_payload response_text = Ok p -> startswith p [lbrace] = true.
Proof.
  intros H.
  destruct (startswith (cleaned response_text) [lbrace]) eqn:Hs.
  - rewrite extract_payload_cleaned in H. cbv zeta in H. rewrite Hs in H.
    cbn [negb] in H. now injection H as <-.
  - destruct (extract_payload_fallback _ _ H Hs)
      as (n & m & Hnm & Hn & _ & Hm & _ & ->).
    destruct (slice_span _ n m Hnm Hn Hm) as (body & -> & _).
    cbn [startswith]. now rewrite N.eqb_refl.
Qed.

Lemma extract_payload_starts_with_brace_witness :
  extract_payload (u "Here you go: {1} and {2}. Bye") = Ok (u "{1} and {2}")
  /\ startswith (u "{1} and {2}") [lbrace] = true.
Proof.
  split; [reflexivity|].
  exact (extract_payload_starts_with_brace
           (u "Here you go: {1} and {2}. Bye") (u "{1} and {2}") eq_refl).
Defined.

(** X8. When the trimmed, unfenced reply does not start with an opening
    brace and [extract_payload] still returns, what it returns is the part
    of that reply from its first opening brace to its last closing brace,
    both included: nothing before it has an opening brace, nothing after
    it a closing one. *)
Theorem extract_payload_span (response_text p : str) :
  extract_payload response_text = Ok p ->
  startswith (cleaned response_text) [lbrace] = false ->
  exists before body after,
    cleaned response_text = before ++ p ++ after
    /\ p = lbrace :: body ++ [rbrace]
    /\ ~ In lbrace before
    /\ ~ In rbrace after.
Proof.
  intros H Hs.
  destruct (extract_payload_fallback _ _ H Hs)
    as (n & m & Hnm & Hn & Hpre & Hm & Hpost & ->).
  destruct (slice_span _ n m Hnm Hn Hm) as (body & E & Hc).
  exists (firstn n (cleaned response_text)), body,
    (skipn (S m) (cleaned response_text)).
  repeat split; assumption.
Qed.

Lemma extract_payload_span_witness :
  exists before body after,
    cleaned (u "Here you go: {1} and {2}. Bye")
    = before ++ u "{1} and {2}" ++ after
    /\ u "{1} and {2}" = lbrace :: body ++ [rbrace]
    /\ ~ In lbrace before
    /\ ~ In rbrace after.
Proof.
  exact (extract_payload_span (u "Here you go: {1} and {2}. Bye")
           (u "{1} and {2}") eq_refl eq_refl).
Defined.

Lemma trimmed_between (c : N) (body : str) (y : N) :
  isspace c = false -> isspace y = false ->
  trimmed (c :: body ++ [y]) = true.
Proof.
  intros Hc Hy. cbn [trimmed].
  change (c :: body ++ [y]) with ((c :: body) ++ [y]).
  now rewrite last_last, Hc, Hy.
Qed.

Lemma fence_trimmed (w2 p w3 : str) :
  trimmed (u "```json" ++ w2 ++ p ++ w3 ++ u "```") = true.
Proof.
  replace (u "```json" ++ w2 ++ p ++ w3 ++ u "```")
    with (96%N :: (u "``json" ++ w2 ++ p ++ w3 ++ u "``") ++ [96%N]).
  - apply trimmed_between; reflexivity.
  - rewrite <- !app_assoc. reflexivity.
Qed.

Lemma cleaned_fenced (w1 w2 p w3 w4 : str) :
  forallb isspace w1 = true -> forallb isspace w2 = true ->
  forallb isspace w3 = true -> forallb isspace w4 = true ->
  trimmed p = true ->
  cleaned (fenced w1 w2 p w3 w4) = p.
Proof.
  intros H1 H2 H3 H4 Hp. unfold cleaned, fenced.
  set (F := u "```json" ++ w2 ++ p ++ w3 ++ u "```").
  assert (trimmed F = true) as HF by apply fence_trimmed.
  replace (w1 ++ u "```json" ++ w2 ++ p ++ w3 ++ u "```" ++ w4)
    with (w1 ++ F ++ w4) by (unfold F; now rewrite <- !app_assoc).
  rewrite (strip_pad w1 F w4 H1 H4 HF).
  assert (strip F = F) as ->.
  { rewrite <- (app_nil_r F) at 1. now apply (strip_pad [] F []). }
  assert (startswith F (u "```json") = true) as ->
    by (unfold F; apply startswith_app_self).
  assert (endswith F (u "```") = true) as ->.
  { unfold endswith, F. rewrite !rev_app_distr, <- !app_assoc.
    apply startswith_app_self. }
  cbn [andb].
  assert (slice F 7 (length F - 3) = w2 ++ p ++ w3) as ->.
  { unfold slice, F.
    change (skipn 7 (u "```json" ++ w2 ++ p ++ w3 ++ u "```"))
      with (w2 ++ p ++ w3 ++ u "```").
    rewrite !length_app.
    change (length (u "```json")) with 7. change (length (u "```")) with 3.
    replace (7 + (length w2 + (length p + (length w3 + 3))) - 3 - 7)
      with (length (w2 ++ p ++ w3)) by (rewrite !length_app; lia).
    replace (w2 ++ p ++ w3 ++ u "```") with ((w2 ++ p ++ w3) ++ u "```")
      by now rewrite <- !app_assoc.
    rewrite firstn_app, Nat.sub_diag, firstn_all. apply app_nil_r. }
  now apply strip_pad.
Qed.

(** X9. A payload that starts with an opening brace and has no white
    space at its end, put in a [json] code fence with any white space
    between the fence and the payload and around the whole reply, is
    extracted exactly. *)
Theorem fenced_payload_extracted_exactly (w1 w2 p w3 w4 : str) :
  forallb isspace w1 = true -> forallb isspace w2 = true ->
  forallb isspace w3 = true -> forallb isspace w4 = true ->
  trimmed p = true ->
  startswith p [lbrace] = true ->
  extract_payload (fenced w1 w2 p w3 w4) = Ok p.
Proof.
  intros H1 H2 H3 H4 Hp Hb.
  rewrite extract_payload_cleaned. cbv zeta.
  rewrite (cleaned_fenced w1 w2 p w3 w4 H1 H2 H3 H4 Hp), Hb.
  reflexivity.
Qed.

Lemma fenced_payload_extracted_exactly_witness :
  extract_payload
    (fenced (u " ") [newline] (u "{ 1 }") [newline; newline] [newline])
  = Ok (u "{ 1 }").
Proof.
  exact (fenced_payload_extracted_exactly
           (u " ") [newline] (u "{ 1 }") [newline; newline] [newline]
           eq_refl eq_refl eq_refl eq_refl eq_refl eq_refl).
Defined.

Lemma normalize_result_fields (x r : value) :
  normalize_result x = Ok r -> has_result_fields r.
Proof.
  destruct (is_mapping x) eqn:Ex.
  - destruct x as [| | | | | |d]; try discriminate.
    intros H. apply normalize_result_inv in H as (ncs & nm & fr & _ & _ & _ & ->).
    apply result_record_fields.
  - rewrite (normalize_result_default x Ex). intros [= <-].
    eexists. split; reflexivity.
Qed.

(** X10. Once the model has replied, [post] answers with status 200
    exactly when a payload is extracted, the parser reads it, and the
    normalizer returns; the body is then what the normalizer returned and
    has every field of a normalized result. In every other case it
    answers with status 500 and a body that is a mapping of the one key
    [error] to a message. *)
Theorem respond_result_or_error (json_loads : str -> option value)
    (response_text : str) :
  (status_of (respond json_loads response_text) = 200
   <-> exists p x r,
         extract_payload response_text = Ok p
         /\ json_loads p = Some x
         /\ normalize_result x = Ok r)
  /\ (forall p x r,
        extract_payload response_text = Ok p ->
        json_loads p = Some x ->
        normalize_result x = Ok r ->
        status_of (respond json_loads response_text) = 200
        /\ body_of (respond json_loads response_text) = r
        /\ has_result_fields r)
  /\ (status_of (respond json_loads response_text) <> 200 ->
      status_of (respond json_loads response_text) = 500
      /\ exists msg,
           body_of (respond json_loads response_text)
           = VDict [ (u "error", VStr msg) ]).
Proof.
  unfold respond.
  destruct (extract_payload response_text) as [p|e].
  2:{ split; [|split].
      - split; [discriminate | intros (p & x & r & [=] & _)].
      - intros p x r [=].
      - intros _. split; [reflexivity | eexists; reflexivity]. }
  destruct (json_loads p) as [x|] eqn:Ej.
  2:{ split; [|split].
      - split; [discriminate|].
        intros (p' & x & r & [= <-] & Hx & _). congruence.
      - intros p' x r [= <-] Hx. congruence.
      - intros _. split; [reflexivity | eexists; reflexivity]. }
  destruct (normalize_result x) as [r|e] eqn:En.
  2:{ split; [|split].
      - split; [discriminate|].
        intros (p' & x' & r & [= <-] & Hx & Hr). congruence.
      - intros p' x' r [= <-] Hx Hr. congruence.
      - intros _. split; [reflexivity | eexists; reflexivity]. }
  split; [|split].
  - split; [|reflexivity]. intros _. exists p, x, r. repeat split; assumption.
  - intros p' x' r' [= <-] Hx Hr.
    assert (x' = x) as -> by congruence.
    assert (r' = r) as -> by congruence.
    split; [reflexivity|]. split; [reflexivity|].
    exact (normalize_result_fields x r En).
  - intros H. exfalso. apply H. reflexivity.
Qed.

Lemma respond_result_or_error_witness :
  status_of (respond sample_loads (u " {} ")) = 200
  /\ body_of (respond sample_loads (u " {} ")) = VDict default_result_of_empty
  /\ has_result_fields (VDict default_result_of_empty).
Proof.
  exact (proj1 (proj2 (respond_result_or_error sample_loads (u " {} ")))
           (u "{}") (VDict []) (VDict default_result_of_empty)
           eq_refl eq_refl eq_refl).
Defined.

(** * Further properties of the prompt compiler *)

Lemma closing_quote_esc_char (c : N) (rest : str) :
  closing_quote (esc_char c ++ rest)
  = option_map (fun n => length (esc_char c) + n) (closing_quote rest).
Proof.
  unfold esc_char.
  destruct (N.eqb_spec c backslash) as [->|Hb]; [reflexivity|].
  destruct (N.eqb_spec c dquote) as [->|Hq]; [reflexivity|].
  cbn [app closing_quote length].
  apply N.eqb_neq in Hb, Hq. rewrite Hb, Hq. reflexivity.
Qed.

(** X11. An escaped text cannot end the string literal it is put in: in
    [esc t] followed by the closing double quote and anything else, the
    first double quote that is not escaped is that closing one. *)
Theorem esc_keeps_literal_closed (t rest : str) :
  closing_quote (esc t ++ dquote :: rest) = Some (length (esc t)).
Proof.
  rewrite esc_flat_map.
  induction t as [|c t IH]; [reflexivity|].
  change (flat_map esc_char (c :: t)) with (esc_char c ++ flat_map esc_char t).
  rewrite <- app_assoc, closing_quote_esc_char, IH, length_app.
  reflexivity.
Qed.

Lemma startswith_esc (p : str) : forall t,
  plain p = true ->
  startswith (flat_map esc_char t) p = startswith t p.
Proof.
  induction p as [|y p IH]; intros t Hp; [reflexivity|].
  cbn [plain forallb] in Hp. apply andb_true_iff in Hp as [Hy Hp].
  apply andb_true_iff in Hy as [Hyb Hyq].
  apply negb_true_iff in Hyb, Hyq.
  destruct t as [|c t]; [reflexivity|].
  change (flat_map esc_char (c :: t)) with (esc_char c ++ flat_map esc_char t).
  specialize (IH t Hp). revert IH.
  generalize (flat_map esc_char t). intros F IH.
  unfold esc_char.
  destruct (N.eqb_spec c backslash) as [->|Hb].
  - cbn [app startswith]. rewrite N.eqb_sym, Hyb. reflexivity.
  - destruct (N.eqb_spec c dquote) as [->|Hq].
    + cbn [app startswith]. rewrite (N.eqb_sym backslash), Hyb.
      rewrite (N.eqb_sym dquote), Hyq. reflexivity.
    + cbn [app startswith]. now rewrite IH.
Qed.

Lemma contains_esc (y : N) (p t : str) :
  plain (y :: p) = true ->
  contains (esc t) (y :: p) = contains t (y :: p).
Proof.
  intros Hp. rewrite esc_flat_map.
  assert (Hy := Hp). cbn [plain forallb] in Hy.
  apply andb_true_iff in Hy as [Hy _].
  apply andb_true_iff in Hy as [Hyb Hyq].
  apply negb_true_iff in Hyb, Hyq.
  induction t as [|c t IH]; [reflexivity|].
  cbn [contains]. rewrite <- IH, <- (startswith_esc (y :: p) (c :: t) Hp).
  change (flat_map esc_char (c :: t)) with (esc_char c ++ flat_map esc_char t).
  generalize (flat_map esc_char t). intros F.
  unfold esc_char.
  destruct (N.eqb_spec c backslash) as [->|Hb].
  - cbn [app contains startswith].
    rewrite (N.eqb_sym backslash), Hyb. reflexivity.
  - destruct (N.eqb_spec c dquote) as [->|Hq]; [|reflexivity].
    cbn [app contains startswith].
    rewrite (N.eqb_sym backslash), Hyb, (N.eqb_sym dquote), Hyq. reflexivity.
Qed.

(** X12. When the reference text does not contain the text
    [<<CVS_TEXT>>], the prompt is the template with the escaped reference
    text in the place of [<<TOR_TEXT>>] and the document list in the place
    of [<<CVS_TEXT>>], and nothing else changed: whatever the file names
    and the documents contain, placeholders included, is not substituted. *)
Theorem craft_prompt_two_substitutions (tor : str) (cv_contents : list cv) :
  contains tor cvs_placeholder = false ->
  craft_prompt tor cv_contents = substituted tor cv_contents.
Proof.
  intros H. apply craft_prompt_substitutes.
  change cvs_placeholder with (60%N :: u "<CVS_TEXT>>") in *.
  rewrite contains_esc; [assumption | reflexivity].
Qed.

Lemma craft_prompt_two_substitutions_witness :
  craft_prompt (u "Engineer, <<TOR_TEXT>>")
    [ {| filename := u "<<TOR_TEXT>>.txt"; content := u "<<CVS_TEXT>>" |} ]
  = substituted (u "Engineer, <<TOR_TEXT>>")
      [ {| filename := u "<<TOR_TEXT>>.txt"; content := u "<<CVS_TEXT>>" |} ].
Proof.
  exact (craft_prompt_two_substitutions (u "Engineer, <<TOR_TEXT>>")
           [ {| filename := u "<<TOR_TEXT>>.txt"; content := u "<<CVS_TEXT>>" |} ]
           eq_refl).
Defined.

(** * Properties of text extraction and of the view *)

Section ViewFacts.

Variable lower : str -> str.
Variable api_key : option str.
Variable generate : str -> reply.
Variable json_loads : str -> option value.

Lemma extract_raise_message (file : upload) (e : exn) :
  extract_text_from_file lower file = Raise e ->
  e = ValueError (u "Failed to extract text from " ++ lower (name file)).
Proof.
  unfold extract_text_from_file. cbv zeta.
  destruct (endswith (lower (name file)) (u ".pdf")).
  { destruct (pdf_pages file); [discriminate | now intros [= <-]]. }
  destruct (endswith (lower (name file)) (u ".docx")
            || endswith (lower (name file)) (u ".doc")).
  { destruct (docx_paragraphs file); [discriminate | now intros [= <-]]. }
  destruct (endswith (lower (name file)) (u ".txt")).
  { destruct (decoded file); [discriminate | now intros [= <-]]. }
  now intros [= <-].
Qed.

(** X13. Text extraction fails in one way only: whatever goes wrong, a
    reader that raises or a file type that is not supported, the caller
    gets the [ValueError] "Failed to extract text from" with the file name
    in lower case; and a name that ends in none of [.pdf], [.docx], [.doc]
    and [.txt], in lower case, does fail, whatever the file holds. The
    message "Unsupported file type" never leaves the function. *)
Theorem extraction_fails_in_one_way (file : upload) :
  (forall e,
     extract_text_from_file lower file = Raise e ->
     e = ValueError (u "Failed to extract text from " ++ lower (name file)))
  /\ (endswith (lower (name file)) (u ".pdf") = false ->
      endswith (lower (name file)) (u ".docx") = false ->
      endswith (lower (name file)) (u ".doc") = false ->
      endswith (lower (name file)) (u ".txt") = false ->
      extract_text_from_file lower file
      = Raise (ValueError (u "Failed to extract text from " ++ lower (name file)))).
Proof.
  split; [apply extract_raise_message|].
  unfold extract_text_from_file. cbv zeta.
  intros -> -> -> ->. reflexivity.
Qed.

Lemma read_cv_name (file : upload) (item : cv) :
  read_cv lower file = Ok item -> filename item = name file.
Proof.
  unfold read_cv.
  destruct (extract_text_from_file lower file); [|discriminate].
  now intros [= <-].
Qed.

Lemma read_cv_names (files : list upload) (items : list cv) :
  mapM (read_cv lower) files = Ok items -> map filename items = map name files.
Proof.
  intros H. apply mapM_Forall2 in H.
  induction H as [|f c fs cs Hfc _ IH]; [reflexivity|].
  simpl. now rewrite (read_cv_name f c Hfc), IH.
Qed.

Lemma respond_status (response_text : str) :
  status_of (respond json_loads response_text) = 200
  \/ status_of (respond json_loads response_text) = 500.
Proof.
  unfold respond.
  destruct (extract_payload response_text) as [p|]; [|now right].
  destruct (json_loads p) as [x|]; [|now right].
  destruct (normalize_result x); [now left | now right].
Qed.

Lemma respond_ok_fields (response_text : str) :
  status_of (respond json_loads response_text) = 200 ->
  has_result_fields (body_of (respond json_loads response_text)).
Proof.
  unfold respond.
  destruct (extract_payload response_text) as [p|]; [|discriminate].
  destruct (json_loads p) as [x|]; [|discriminate].
  destruct (normalize_result x) as [r|] eqn:En; [|discriminate].
  intros _. exact (normalize_result_fields x r En).
Qed.

(** X14. [post] answers with status 400 exactly when the request is at
    fault: the reference text is missing or empty, no file is uploaded,
    more than ten files are uploaded, or every file can be read and none
    holds anything but white space. *)
Theorem post_bad_request_iff (tor : option str) (cv_files : list upload) :
  status_of (post lower api_key generate json_loads tor cv_files) = 400
  <-> missing tor = true
      \/ cv_files = []
      \/ 10 < length cv_files
      \/ exists cv_contents,
           mapM (read_cv lower) cv_files = Ok cv_contents
           /\ forallb (fun item => blank (content item)) cv_contents = true.
Proof.
  unfold post.
  destruct tor as [[|c tor_text]|]; try (split; [now left | reflexivity]).
  destruct cv_files as [|f fs]; [split; [right; now left | reflexivity]|].
  destruct (10 <? length (f :: fs)) eqn:Hlen.
  { split; [|reflexivity]. intros _. right; right; left. now apply Nat.ltb_lt. }
  apply Nat.ltb_ge in Hlen.
  destruct (mapM (read_cv lower) (f :: fs)) as [cv_contents|e].
  2:{ split; [discriminate|].
      intros [H|[H|[H|(c0 & H & _)]]]; try discriminate; lia. }
  destruct (forallb (fun item => blank (content item)) cv_contents) eqn:Hb.
  { split; [|reflexivity]. intros _. right; right; right.
    exists cv_contents. now split. }
  assert (status_of
            (if missing api_key
             then error_response (u "GEMINI_API_KEY not configured on server.")
             else match generate (craft_prompt (c :: tor_text) cv_contents) with
                  | Failure message => error_response message
                  | Reply text => respond json_loads text
                  end) <> 400) as Hne.
  { destruct (missing api_key); [discriminate|].
    destruct (generate _) as [text|]; [|discriminate].
    destruct (respond_status text) as [-> | ->]; discriminate. }
  split; [intros H; contradiction|].
  intros [H|[H|[H|(c0 & H & Hb')]]]; try discriminate; try lia.
  injection H as <-. congruence.
Qed.

(** X15. [post] answers with status 200 only when the reference text is
    not empty, between one and ten files are uploaded, every one of them
    is read without an exception, not all of them are blank, the key of
    the provider is configured, and the model, called with the prompt
    compiled from the reference text and from the files under their own
    names and in their order, replies; the body then has every field of a
    normalized result. *)
Theorem post_ok_only_if (tor : option str) (cv_files : list upload) :
  status_of (post lower api_key generate json_loads tor cv_files) = 200 ->
  exists tor_text cv_contents text,
    tor = Some tor_text /\ tor_text <> []
    /\ 1 <= length cv_files <= 10
    /\ mapM (read_cv lower) cv_files = Ok cv_contents
    /\ map filename cv_contents = map name cv_files
    /\ forallb (fun item => blank (content item)) cv_contents = false
    /\ missing api_key = false
    /\ generate (craft_prompt tor_text cv_contents) = Reply text
    /\ post lower api_key generate json_loads tor cv_files
       = respond json_loads text
    /\ has_result_fields
         (body_of (post lower api_key generate json_loads tor cv_files)).
Proof.
  unfold post.
  destruct tor as [[|c tor_text]|]; try discriminate.
  destruct cv_files as [|f fs]; [discriminate|].
  destruct (10 <? length (f :: fs)) eqn:Hlen; [discriminate|].
  apply Nat.ltb_ge in Hlen.
  destruct (mapM (read_cv lower) (f :: fs)) as [cv_contents|e] eqn:Hm;
    [|discriminate].
  destruct (forallb (fun item => blank (content item)) cv_contents) eqn:Hb;
    [discriminate|].
  destruct (missing api_key) eqn:Hk; [discriminate|].
  destruct (generate (craft_prompt (c :: tor_text) cv_contents)) as [text|] eqn:Hg;
    [|discriminate].
  intros Hs. exists (c :: tor_text), cv_contents, text.
  repeat split; try assumption; try reflexivity.
  - discriminate.
  - simpl. lia.
  - now apply read_cv_names.
  - now apply respond_ok_fields.
Qed.

(** X16. When the request passes the first checks and a file cannot be
    read, [post] answers with status 500 and a body that is the mapping of
    the one key [error] to the message "Failed to extract text from" with
    the lower-case name of one of the uploaded files, whatever the key,
    the model and the parser are. *)
Theorem post_unreadable_file (tor_text : str) (cv_files : list upload) (e : exn) :
  tor_text <> [] ->
  1 <= length cv_files <= 10 ->
  mapM (read_cv lower) cv_files = Raise e ->
  exists file,
    In file cv_files
    /\ status_of (post lower api_key generate json_loads (Some tor_text) cv_files)
       = 500
    /\ body_of (post lower api_key generate json_loads (Some tor_text) cv_files)
       = VDict [ (u "error",
                  VStr (u "Failed to extract text from " ++ lower (name file))) ].
Proof.
  intros Ht Hlen Hm. unfold post.
  destruct tor_text as [|c tor_text]; [contradiction|].
  destruct cv_files as [|f fs]; [simpl in Hlen; lia|].
  assert ((10 <? length (f :: fs)) = false) as -> by (apply Nat.ltb_ge; lia).
  rewrite Hm.
  apply mapM_Raise_inv in Hm as (file & Hin & Hr).
  exists file. split; [assumption|].
  unfold read_cv in Hr.
  destruct (extract_text_from_file lower file) as [|e'] eqn:He; [discriminate|].
  injection Hr as <-.
  apply extract_raise_message in He. subst e'.
  split; reflexivity.
Qed.

End ViewFacts.

Lemma extraction_fails_in_one_way_witness :
  extract_text_from_file sample_lower photo_png
  = Raise (ValueError (u "Failed to extract text from photo.png")).
Proof.
  exact (proj2 (extraction_fails_in_one_way sample_lower photo_png)
           eq_refl eq_refl eq_refl eq_refl).
Defined.

Lemma post_ok_only_if_witness :
  status_of
    (post sample_lower (Some (u "key")) sample_generate sample_loads
       (Some (u "Field engineer")) [ notes_txt ]) = 200
  /\ exists tor_text cv_contents text,
       Some (u "Field engineer") = Some tor_text /\ tor_text <> []
       /\ 1 <= length [ notes_txt ] <= 10
       /\ mapM (read_cv sample_lower) [ notes_txt ] = Ok cv_contents
       /\ map filename cv_contents = map name [ notes_txt ]
       /\ forallb (fun item => blank (content item)) cv_contents = false
       /\ missing (Some (u "key")) = false
       /\ sample_generate (craft_prompt tor_text cv_contents) = Reply text
       /\ post sample_lower (Some (u "key")) sample_generate sample_loads
            (Some (u "Field engineer")) [ notes_txt ]
          = respond sample_loads text
       /\ has_result_fields
            (body_of
               (post sample_lower (Some (u "key")) sample_generate sample_loads
                  (Some (u "Field engineer")) [ notes_txt ])).
Proof.
  split; [reflexivity|].
  exact (post_ok_only_if sample_lower (Some (u "key")) sample_generate
           sample_loads (Some (u "Field engineer")) [ notes_txt ] eq_refl).
Defined.

Lemma post_unreadable_file_witness :
  exists file,
    In file [ notes_txt; photo_png ]
    /\ status_of
         (post sample_lower (Some (u "key")) sample_generate sample_loads
            (Some (u "Field engineer")) [ notes_txt; photo_png ]) = 500
    /\ body_of
         (post sample_lower (Some (u "key")) sample_generate sample_loads
            (Some (u "Field engineer")) [ notes_txt; photo_png ])
       = VDict [ (u "error",
                  VStr (u "Failed to extract text from "
                          ++ sample_lower (name file))) ].
Proof.
  apply (post_unreadable_file sample_lower (Some (u "key")) sample_generate
           sample_loads (u "Field engineer") [ notes_txt; photo_png ]
           (ValueError (u "Failed to extract text from photo.png"))).
  - discriminate.
  - simpl. lia.
  - reflexivity.
Defined.

(** * What the result shares with the input *)

Lemma bind_Ret_inv {A B : Type} (m : Heap.M A) (k : A -> Heap.M B)
    (h h' : Heap.heap) (r : B) :
  Heap.bind m k h = Heap.Ret r h' ->
  exists a h1, m h = Heap.Ret a h1 /\ k a h1 = Heap.Ret r h'.
Proof.
  unfold Heap.bind. destruct (m h) as [a h1| |]; try discriminate.
  intros H. now exists a, h1.
Qed.

Lemma frame_run {A : Type} (b : nat) (m : Heap.M A) (Q : A -> Prop)
    (h h' : Heap.heap) (a : A) :
  m h = Heap.Ret a h' -> frame b m Q -> b <= length h ->
  unchanged b h h' /\ Q a.
Proof. intros Hm Hf Hb. specialize (Hf h Hb). now rewrite Hm in Hf. Qed.

Lemma get_run (h : Heap.heap) (a : Heap.addr) (d : list (str * Heap.ref))
    (k : str) (dflt : Heap.ref) :
  nth_error h a = Some (Heap.ODict d) ->
  Heap.get (Heap.RObj a) k dflt h = Heap.Ret (dict_get d k dflt) h.
Proof.
  intros H. unfold Heap.get, Heap.bind, Heap.load. now rewrite H.
Qed.

Lemma is_dict_run (h : Heap.heap) (a : Heap.addr) (d : list (str * Heap.ref)) :
  nth_error h a = Some (Heap.ODict d) ->
  Heap.is_dict (Heap.RObj a) h = Heap.Ret true h.
Proof.
  intros H. unfold Heap.is_dict, Heap.bind, Heap.load. now rewrite H.
Qed.

Lemma ensure_list_run (h : Heap.heap) (a : Heap.addr) (items : list Heap.ref) :
  nth_error h a = Some (Heap.OList items) ->
  Heap._ensure_list (Heap.RObj a) h = Heap.Ret (Heap.RObj a) h.
Proof.
  intros H. unfold Heap._ensure_list, Heap.bind, Heap.load. now rewrite H.
Qed.

Create HintDb heap_frame.

#[local] Hint Resolve frame_dict_lit frame_list_lit frame_get frame_is_dict
  frame_items_of frame_item frame_copy frame_merge frame_ensure_list
  frame_update frame_append frame_for_each frame_normalize_candidate
  frame_normalize_matrix_item frame_default_scores frame_default_candidate
  frame_default_result : heap_frame.

(** One statement of a run that returned: what it returned, the heap it
    left, and that the heap of the start is still there. *)
Ltac ran H Hu :=
  let x := fresh "x" in
  let h1 := fresh "h" in
  let Hm := fresh "Hm" in
  let Hu' := fresh "Hu" in
  let HQ := fresh "HQ" in
  apply bind_Ret_inv in H as (x & h1 & Hm & H);
  cbv beta in H;
  eapply frame_run in Hm;
    [ | solve [eauto with heap_frame] | exact (proj2 Hu) ];
  destruct Hm as [Hu' HQ];
  apply (unchanged_trans _ _ _ _ Hu) in Hu';
  clear Hu; rename Hu' into Hu.

(** X17. On a heap where the input is a mapping whose [criteria] is a
    list, the result of [normalize_result] is a new mapping with the five
    fields, whose [criteria] is that very list object of the input, not a
    copy, and whose [tor_text] is the input's own value; its [candidates],
    [comparison_matrix] and [final_recommendation] are objects made
    during the call. *)
Theorem result_shares_criteria (a c : Heap.addr) (d : list (str * Heap.ref))
    (items : list Heap.ref) (h h' : Heap.heap) (r : Heap.ref) :
  nth_error h a = Some (Heap.ODict d) ->
  dict_lookup d (u "criteria") = Some (Heap.RObj c) ->
  nth_error h c = Some (Heap.OList items) ->
  Heap.normalize_result (Heap.RObj a) h = Heap.Ret r h' ->
  exists ar candidates matrix recommendation,
    r = Heap.RObj ar
    /\ nth_error h' ar
       = Some (Heap.ODict
                 [ (u "tor_text", dict_get d (u "tor_text") (Heap.RStr []));
                   (u "criteria", Heap.RObj c);
                   (u "candidates", candidates);
                   (u "comparison_matrix", matrix);
                   (u "final_recommendation", recommendation) ])
    /\ nth_error h' c = Some (Heap.OList items)
    /\ fresh (length h) candidates
    /\ fresh (length h) matrix
    /\ fresh (length h) recommendation.
Proof.
  intros Ha Hd Hc H.
  assert (Hu := unchanged_refl (length h) h).
  unfold Heap.normalize_result in H.
  ran H Hu. ran H Hu. ran H Hu.
  apply bind_Ret_inv in H as (isd & ? & Hm & H). cbv beta in H.
  rewrite (is_dict_run _ a d (unchanged_lookup _ _ _ _ Hu Ha)) in Hm.
  injection Hm as <- <-. cbn [negb] in H.
  ran H Hu. ran H Hu. ran H Hu. ran H Hu. ran H Hu. ran H Hu.
  ran H Hu. ran H Hu. ran H Hu. ran H Hu. ran H Hu. ran H Hu.
  ran H Hu. ran H Hu. ran H Hu. ran H Hu. ran H Hu. ran H Hu.
  apply bind_Ret_inv in H as (tor & ? & Hm & H). cbv beta in H.
  rewrite (get_run _ a d _ _ (unchanged_lookup _ _ _ _ Hu Ha)) in Hm.
  injection Hm as <- <-.
  ran H Hu.
  apply bind_Ret_inv in H as (crit & ? & Hm & H). cbv beta in H.
  rewrite (get_run _ a d _ _ (unchanged_lookup _ _ _ _ Hu Ha)) in Hm.
  injection Hm as <- <-.
  unfold dict_get in H. rewrite Hd in H.
  apply bind_Ret_inv in H as (crit & ? & Hm & H). cbv beta in H.
  rewrite (ensure_list_run _ c items (unchanged_lookup _ _ _ _ Hu Hc)) in Hm.
  injection Hm as <- <-.
  unfold Heap.dict_lit, Heap.bind, Heap.alloc, Heap.ret in H.
  injection H as <- <-.
  do 4 eexists. split; [reflexivity|]. split.
  { rewrite nth_error_app2, Nat.sub_diag by lia. reflexivity. }
  split.
  { rewrite nth_error_app1.
    - exact (unchanged_lookup _ _ _ _ Hu Hc).
    - apply nth_error_Some. rewrite (unchanged_lookup _ _ _ _ Hu Hc). discriminate. }
  repeat split; assumption.
Qed.

Lemma result_shares_criteria_witness :
  exists ar candidates matrix recommendation,
    sample_result = Heap.RObj ar
    /\ nth_error sample_heap_after ar
       = Some (Heap.ODict
                 [ (u "tor_text", Heap.RStr []);
                   (u "criteria", Heap.RObj 4);
                   (u "candidates", candidates);
                   (u "comparison_matrix", matrix);
                   (u "final_recommendation", recommendation) ])
    /\ nth_error sample_heap_after 4 = Some (Heap.OList [])
    /\ fresh (length sample_heap) candidates
    /\ fresh (length sample_heap) matrix
    /\ fresh (length sample_heap) recommendation.
Proof.
  exact (result_shares_criteria 0 4
           [ (u "candidates", Heap.RObj 1); (u "criteria", Heap.RObj 4) ]
           [] sample_heap sample_heap_after sample_result
           eq_refl eq_refl eq_refl eq_refl).
Defined.

(** * Coercions, plain texts and blank documents *)

(** X18. A text without backslash and without double quote is embedded
    in the prompt as it is: [esc] changes nothing in it. *)
Theorem esc_plain (t : str) : plain t = true -> esc t = t.
Proof.
  intros H. rewrite esc_flat_map.
  induction t as [|c t IH]; [reflexivity|].
  cbn [plain forallb] in H. apply andb_true_iff in H as [Hc Ht].
  apply andb_true_iff in Hc as [Hb Hq]. apply negb_true_iff in Hb, Hq.
  cbn [flat_map]. unfold esc_char at 1. rewrite Hb, Hq.
  cbn [app]. now rewrite (IH Ht).
Qed.

Lemma esc_plain_witness :
  esc (u "CV - Jane Doe (2024).pdf") = u "CV - Jane Doe (2024).pdf".
Proof. exact (esc_plain (u "CV - Jane Doe (2024).pdf") eq_refl). Defined.

Lemma dict_get_set {V : Type} (d : list (str * V)) (k k' : str) (v dflt : V) :
  dict_get (dict_set d k v) k' dflt
  = if str_eqb k k' then v else dict_get d k' dflt.
Proof.
  unfold dict_get. destruct (str_eqb_spec k k') as [<-|Hne].
  - now rewrite dict_lookup_set_same.
  - now rewrite dict_lookup_set_other.
Qed.

Lemma ensure_list_twice (v : value) :
  _ensure_list (VList (_ensure_list v)) = _ensure_list v.
Proof. reflexivity. Qed.

(** X19. Under [candidates], [comparison_matrix] and [criteria], a value
    and its coercion to a list are normalized alike: a single value is
    taken as the list of that one value, [None] as the empty list, and a
    list as itself. *)
Theorem list_coercion_absorbed (d : dict) (k : str) (v : value) :
  In k list_fields ->
  dict_lookup d k = Some v ->
  normalize_result (VDict (dict_set d k (VList (_ensure_list v))))
  = normalize_result (VDict d).
Proof.
  intros Hk Hv.
  assert (dict_get d k (VList []) = v /\ dict_get d k rubric_value = v) as [E1 E2]
    by (unfold dict_get; now rewrite Hv).
  rewrite !normalize_result_dict. unfold input_candidates.
  rewrite !dict_get_set.
  destruct Hk as [<-|[<-|[<-|[]]]];
    repeat match goal with
           | |- context [str_eqb ?a ?b] =>
               let r := eval vm_compute in (str_eqb a b) in
               change (str_eqb a b) with r
           end;
    cbv iota; rewrite ?ensure_list_twice, ?E1, ?E2; reflexivity.
Qed.

Lemma list_coercion_absorbed_witness :
  normalize_result
    (VDict (dict_set jane_entries (u "candidates")
              (VList [ VDict [ (u "candidate_name", VStr (u "Jane Doe"));
                               (u "scores", VDict [ (u "total_score", VInt 71) ]);
                               (u "detailed_evaluation", VStr (u "strong")) ] ])))
  = normalize_result jane.
Proof.
  apply (list_coercion_absorbed jane_entries (u "candidates")
           (VDict [ (u "candidate_name", VStr (u "Jane Doe"));
                    (u "scores", VDict [ (u "total_score", VInt 71) ]);
                    (u "detailed_evaluation", VStr (u "strong")) ])).
  - simpl. tauto.
  - reflexivity.
Defined.

Lemma find_from_app (c : N) (before rest : str) : forall i,
  ~ In c before ->
  find_from c i (before ++ c :: rest) = (i + Z.of_nat (length before))%Z.
Proof.
  induction before as [|x before IH]; intros i Hc.
  - cbn [app find_from length]. rewrite N.eqb_refl. lia.
  - cbn [app find_from length].
    destruct (N.eqb_spec x c) as [->|Hne]; [exfalso; apply Hc; now left|].
    rewrite IH by (intros Hin; apply Hc; now right). lia.
Qed.

Lemma rfind_from_absent (c : N) (s : str) : forall i last,
  ~ In c s -> rfind_from c i last s = last.
Proof.
  induction s as [|x s IH]; intros i last Hc; [reflexivity|].
  cbn [rfind_from].
  destruct (N.eqb_spec x c) as [->|Hne]; [exfalso; apply Hc; now left|].
  apply IH. intros Hin. apply Hc. now right.
Qed.

Lemma rfind_from_app (c : N) (s after : str) : forall i last,
  ~ In c after ->
  rfind_from c i last (s ++ c :: after) = (i + Z.of_nat (length s))%Z.
Proof.
  induction s as [|x s IH]; intros i last Hc.
  - cbn [app rfind_from length]. rewrite N.eqb_refl.
    rewrite rfind_from_absent by assumption. lia.
  - cbn [app rfind_from length]. rewrite IH by assumption. lia.
Qed.

(** X20. When the trimmed, unfenced reply is some text without opening
    brace, not empty, then a payload from an opening brace to a closing
    brace, then some text without closing brace, [extract_payload]
    returns that payload, whatever braces it has inside. *)
Theorem prose_around_payload (response_text before body after : str) :
  cleaned response_text = before ++ (lbrace :: body ++ [rbrace]) ++ after ->
  before <> [] ->
  ~ In lbrace before ->
  ~ In rbrace after ->
  extract_payload response_text = Ok (lbrace :: body ++ [rbrace]).
Proof.
  intros E Hne Hb Ha.
  rewrite extract_payload_cleaned. cbv zeta. rewrite E.
  assert (startswith (before ++ (lbrace :: body ++ [rbrace]) ++ after) [lbrace]
          = false) as ->.
  { destruct before as [|x before]; [contradiction|].
    cbn [app startswith].
    destruct (N.eqb_spec x lbrace) as [->|]; [exfalso; apply Hb; now left|].
    reflexivity. }
  cbn [negb]. unfold find, rfind.
  change ((lbrace :: body ++ [rbrace]) ++ after)
    with (lbrace :: (body ++ [rbrace]) ++ after).
  rewrite (find_from_app lbrace before _ 0 Hb).
  replace (before ++ lbrace :: (body ++ [rbrace]) ++ after)
    with ((before ++ lbrace :: body) ++ rbrace :: after)
    by (rewrite <- !app_assoc; reflexivity).
  rewrite (rfind_from_app rbrace _ after 0 (-1) Ha).
  rewrite length_app. cbn [length].
  replace (negb (0 + Z.of_nat (length before) =? -1)%Z) with true
    by (symmetry; apply negb_true_iff, Z.eqb_neq; lia).
  replace (negb (0 + Z.of_nat (length before + S (length body)) =? -1)%Z)
    with true by (symmetry; apply negb_true_iff, Z.eqb_neq; lia).
  replace (0 + Z.of_nat (length before + S (length body))
           >? 0 + Z.of_nat (length before))%Z
    with true by (symmetry; apply Z.gtb_lt; lia).
  cbn [andb]. f_equal. unfold slice.
  replace (Z.to_nat (0 + Z.of_nat (length before))) with (length before) by lia.
  replace (Z.to_nat (0 + Z.of_nat (length before + S (length body)) + 1)
           - length before)
    with (length (lbrace :: body ++ [rbrace]))
    by (cbn [length]; rewrite length_app; cbn [length]; lia).
  rewrite <- !app_assoc.
  rewrite skipn_app, skipn_all, Nat.sub_diag. cbn [app skipn].
  change (lbrace :: body ++ rbrace :: after)
    with ((lbrace :: body) ++ rbrace :: after).
  replace ((lbrace :: body) ++ rbrace :: after)
    with ((lbrace :: body ++ [rbrace]) ++ after)
    by (cbn [app]; rewrite <- app_assoc; reflexivity).
  rewrite firstn_app, Nat.sub_diag, firstn_all. apply app_nil_r.
Qed.

Lemma prose_around_payload_witness :
  extract_payload (u "Sure! {1} and {2}. Bye ") = Ok (u "{1} and {2}").
Proof.
  apply (prose_around_payload (u "Sure! {1} and {2}. Bye ")
           (u "Sure! ") (u "1} and {2") (u ". Bye")).
  - reflexivity.
  - discriminate.
  - vm_compute. intuition discriminate.
  - vm_compute. intuition discriminate.
Defined.

Lemma strip_empty_iff (t : str) : strip t = [] <-> forallb isspace t = true.
Proof.
  split.
  - intros H. unfold strip, rstrip in H.
    destruct (lstrip_split t) as (ws & E & Hws).
    assert (Hh := lstrip_head t).
    destruct (lstrip t) as [|c q] eqn:Eq.
    + rewrite E, app_nil_r. assumption.
    + exfalso.
      apply (f_equal (@rev N)) in H. rewrite rev_involutive in H.
      change (@rev N []) with (@nil N) in H.
      destruct (lstrip_split (rev (c :: q))) as (ws' & E' & Hws').
      rewrite H, app_nil_r in E'.
      rewrite <- E', forallb_rev in Hws'. cbn [forallb] in Hws'.
      rewrite Hh in Hws'. discriminate.
  - intros H. rewrite <- (app_nil_r t).
    apply (strip_pad t [] []); [assumption | reflexivity | reflexivity].
Qed.

(** X21. A document counts as blank, in the check that answers "No
    readable text extracted", exactly when it holds nothing but white
    space, the empty text included. *)
Theorem blank_iff_white_space (text : str) :
  blank text = forallb isspace text.
Proof.
  destruct text as [|c text]; [reflexivity|].
  cbn [blank].
  destruct (strip (c :: text)) as [|x s] eqn:E.
  - symmetry. now apply strip_empty_iff.
  - destruct (forallb isspace (c :: text)) eqn:F; [|reflexivity].
    apply strip_empty_iff in F. congruence.
Qed.
